(** * imxrt1052_can_utility: a shallow embedding of the CAN session script

    The script [imxrt1052_can_utility.py] finds the serial ports of an
    I.MX RT1052 add-on card, configures its two virtual CAN interfaces over
    the management port and then sends, receives or loops back CAN frames
    until the user interrupts it.

    The embedding follows the script function by function.  Calls into the
    outside world (pyserial, python-can, [time], [print]) are recorded as
    events; whether such a call raises, and what it returns, is decided by
    an environment.  Python exceptions are explicit results, [try] /
    [except] / [finally] is a combinator, and the [while True] loop runs on
    fuel. *)

From Stdlib Require Import ZArith String Ascii List Bool Lia DecimalString.
From Stdlib Require Import Permutation.
From Stdlib Require DecimalZ.
Import ListNotations.

Local Open Scope string_scope.
Local Open Scope Z_scope.

(** ** Python strings and bytes

    A Python [str] is represented by its UTF-8 encoding, one [ascii] per
    byte; [bytes] values are strings of bytes as well.  Every string the
    script builds is ASCII. *)

Definition bytes := string.

Definition CR : ascii := ascii_of_nat 13.
Definition LF : ascii := ascii_of_nat 10.
Definition CRLF : string := String CR (String LF EmptyString).
Definition NL : string := String LF EmptyString.

(** [str(n)] and [f'{n}'] for an [int]. *)
Definition str_of_int (n : Z) : string := NilZero.string_of_int (Z.to_int n).

(** [sub in s] for two strings. *)
Fixpoint str_in (sub s : string) : bool :=
  prefix sub s ||
  match s with
  | EmptyString => false
  | String _ s' => str_in sub s'
  end.

(** [', '.join(l)]. *)
Fixpoint join (sep : string) (l : list string) : string :=
  match l with
  | [] => ""
  | [x] => x
  | x :: rest => x ++ sep ++ join sep rest
  end.

(** [str(l)] for a list of [int]. *)
Definition str_of_int_list (l : list Z) : string :=
  "[" ++ join ", " (map str_of_int l) ++ "]".

(** Truth value of a [str]. *)
Definition nonempty (s : string) : bool :=
  match s with EmptyString => false | _ => true end.

(** Truth value of a variable that holds [None] or a [str]. *)
Definition truthy (v : option string) : bool :=
  match v with None => false | Some s => nonempty s end.

(** *** Strict UTF-8, as [bytes.decode()] checks it *)

Definition byte_in (lo hi : N) (c : ascii) : bool :=
  (N.leb lo (N_of_ascii c) && N.leb (N_of_ascii c) hi)%bool.

Definition cont (c : ascii) : bool := byte_in 128 191 c.

Fixpoint utf8_valid (s : bytes) : bool :=
  match s with
  | EmptyString => true
  | String a r1 =>
    if byte_in 0 127 a then utf8_valid r1
    else match r1 with
    | EmptyString => false
    | String b r2 =>
      if byte_in 194 223 a then cont b && utf8_valid r2
      else match r2 with
      | EmptyString => false
      | String c r3 =>
        if byte_in 224 239 a then
          (if N.eqb (N_of_ascii a) 224 then byte_in 160 191 b
           else if N.eqb (N_of_ascii a) 237 then byte_in 128 159 b
           else cont b) && cont c && utf8_valid r3
        else match r3 with
        | EmptyString => false
        | String d r4 =>
          if byte_in 240 244 a then
            (if N.eqb (N_of_ascii a) 240 then byte_in 144 191 b
             else if N.eqb (N_of_ascii a) 244 then byte_in 128 143 b
             else cont b) && cont c && cont d && utf8_valid r4
          else false
        end
      end
    end
  end.

(** ** The payload generator (lines 81-93) *)

Definition inc_dec_data_string (number : Z) (is_increment : bool) (low high : Z)
  : Z * bool * string :=
  let is_increment :=
    if number =? low then true
    else if number =? high then false
    else is_increment in
  let number := if is_increment then number + 1 else number - 1 in
  (number, is_increment, "hello_" ++ str_of_int number).

(** Default bounds of the generator. *)
Definition default_low : Z := 0.
Definition default_high : Z := 9.

(** Longest payload of a classic CAN frame. *)
Definition max_payload_length : nat := 8.

(** ** Exceptions and results *)

Inductive exn : Type :=
| KeyboardInterrupt
| SystemExit (code : Z)
| TypeError (msg : string)
| AttributeError (msg : string)
| UnicodeDecodeError
| LibraryError (name msg : string).
  (* [serial.SerialException], [can.CanError], [OSError], ... *)

(** [isinstance(e, Exception)]: [KeyboardInterrupt] and [SystemExit] derive
    from [BaseException] only. *)
Definition is_Exception (e : exn) : bool :=
  match e with
  | KeyboardInterrupt | SystemExit _ => false
  | _ => true
  end.

(** What a call into the outside world can raise. *)
Inductive fault : Type :=
| Interrupt
| Failure (name msg : string).

Definition exn_of_fault (f : fault) : exn :=
  match f with
  | Interrupt => KeyboardInterrupt
  | Failure name msg => LibraryError name msg
  end.

(** Outcome of running a piece of the script: a value, an exception in
    flight, or [Running] when the fuel of the session loop is used up while
    the loop is still going. *)
Inductive result (A : Type) : Type :=
| Ok (a : A)
| Raise (e : exn)
| Running.
Arguments Ok {A} a.
Arguments Raise {A} e.
Arguments Running {A}.

(** Exit status of the interpreter when [main] ends with an exception that
    nothing caught: the code of [sys.exit], 130 after a keyboard interrupt,
    1 after any other exception. *)
Definition exit_status (e : exn) : Z :=
  match e with
  | SystemExit code => code
  | KeyboardInterrupt => 130
  | _ => 1
  end.

(** ** Data of the libraries *)

(** [serial.tools.list_ports_common.ListPortInfo]: [location] is [None] when
    the platform gives no location for the port. *)
Record ListPortInfo : Type := {
  device : string;
  description : string;
  hwid : string;
  location : option string
}.

(** An open [serial.Serial]. *)
Record Serial : Type := {
  portstr : string;
  is_open : bool
}.

(** A [can.Bus]; [bus_id] is the time of the call that made it, so that two
    handles are never confused. *)
Record Bus : Type := {
  bus_interface : string;
  bus_channel : string;
  bus_bitrate : Z;
  bus_id : nat
}.

(** [can.Message].  [timestamp] stands for the float of
    [datetime.now().timestamp()], which the script only passes on. *)
Record Message : Type := {
  timestamp : Z;
  arbitration_id : Z;
  is_extended_id : bool;
  data : bytes
}.

(** What [print] is given.  Lines whose text is made by a [__str__] of a
    library keep the value instead of the text. *)
Inductive printed : Type :=
| Text (s : string)
| PortLine (p : ListPortInfo)   (* line 111 *)
| SentLine (m : Message)        (* f"Sent: {message}" *)
| ReceivedLine (m : Message)    (* f"Received: {received_msg}" *)
| ErrorLine (e : exn).          (* f"An error occurred: {e}" *)

(** ** Events: the calls the script makes, in the order it makes them

    Durations are the script's float seconds written in milliseconds:
    [time.sleep(0.1)] is [EvSleep 100], [timeout=0.2] is 200. *)
Inductive event : Type :=
| EvPrint (p : printed)
| EvSleep (ms : Z)
| EvNow
| EvComports
| EvSerialOpen (dev : string)
| EvWrite (dev : string) (b : bytes)
| EvInWaiting (dev : string)
| EvRead (dev : string) (size : Z)
| EvResetInput (dev : string)
| EvResetOutput (dev : string)
| EvClose (dev : string)
| EvBusOpen (interface channel : string) (bitrate : Z)
| EvBusSend (b : Bus) (m : Message) (timeout_ms : Z)
| EvBusRecv (b : Bus)
| EvBusShutdown (b : Bus).

(** Opening a serial port or a CAN bus handle. *)
Definition is_open_event (e : event) : bool :=
  match e with
  | EvSerialOpen _ | EvBusOpen _ _ _ => true
  | _ => false
  end.

(** Any call that touches the device. *)
Definition is_device_io (e : event) : bool :=
  match e with
  | EvPrint _ | EvSleep _ | EvNow | EvComports => false
  | _ => true
  end.

(** ** The environment

    The n-th call of a session is made at time n.  The environment says
    whether it raises and, if not, what it returns. *)
Record Env : Type := {
  raises : nat -> option fault;
  comports : list ListPortInfo;            (* system_ports.comports() *)
  port_lt : ListPortInfo -> ListPortInfo -> bool;  (* ListPortInfo.__lt__ *)
  in_waiting : nat -> Z;                   (* port.inWaiting() *)
  read_reply : nat -> bytes;               (* port.read(n) *)
  recv_reply : nat -> Message;             (* bus.recv() *)
  now_reply : nat -> Z                     (* datetime.now().timestamp() *)
}.

(** ** State of a session: the calls made so far, newest first, and the
    three variables that [main] shares between [try] and [finally]. *)
Record State : Type := {
  clock : nat;
  events : list event;
  port : option Serial;
  bus1 : option Bus;
  bus2 : option Bus
}.

Definition initial : State :=
  {| clock := 0; events := []; port := None; bus1 := None; bus2 := None |}.

(** The calls in the order they were made. *)
Definition trace (st : State) : list event := rev (events st).

Definition push (ev : event) (st : State) : State :=
  {| clock := S (clock st); events := ev :: events st;
     port := port st; bus1 := bus1 st; bus2 := bus2 st |}.

Definition set_port (v : option Serial) (st : State) : State :=
  {| clock := clock st; events := events st;
     port := v; bus1 := bus1 st; bus2 := bus2 st |}.

Definition set_bus1 (v : option Bus) (st : State) : State :=
  {| clock := clock st; events := events st;
     port := port st; bus1 := v; bus2 := bus2 st |}.

Definition set_bus2 (v : option Bus) (st : State) : State :=
  {| clock := clock st; events := events st;
     port := port st; bus1 := bus1 st; bus2 := v |}.

(** ** The monad of the script *)

Definition M (A : Type) : Type := Env -> State -> result A * State.

Definition ret {A} (a : A) : M A := fun _ st => (Ok a, st).

Definition bind {A B} (m : M A) (k : A -> M B) : M B :=
  fun env st =>
    match m env st with
    | (Ok a, st') => k a env st'
    | (Raise e, st') => (Raise e, st')
    | (Running, st') => (Running, st')
    end.

Notation "x <- m ;; k" := (bind m (fun x => k))
  (at level 61, m at next level, right associativity).
Notation "m ;; k" := (bind m (fun _ => k))
  (at level 61, right associativity).

Definition raise {A} (e : exn) : M A := fun _ st => (Raise e, st).

Definition get_state : M State := fun _ st => (Ok st, st).

Definition modify (f : State -> State) : M unit := fun _ st => (Ok tt, f st).

(** Something the environment fixes once and for all. *)
Definition ask {A} (f : Env -> A) : M A := fun env st => (Ok (f env), st).

(** One call into the outside world: it is recorded, then it raises or
    returns, as the environment decides.  [reply] reads the returned value
    off the environment at the time of the call. *)
Definition call {A} (ev : event) (reply : Env -> nat -> A) : M A :=
  fun env st =>
    match raises env (clock st) with
    | Some f => (Raise (exn_of_fault f), push ev st)
    | None => (Ok (reply env (clock st)), push ev st)
    end.

Definition call_ (ev : event) : M unit := call ev (fun _ _ => tt).

Definition print (p : printed) : M unit := call_ (EvPrint p).
Definition sleep (ms : Z) : M unit := call_ (EvSleep ms).
Definition sys_exit {A} (code : Z) : M A := raise (SystemExit code).

(** [try: body  except KeyboardInterrupt: h1  except Exception as e: h2 e
    finally: fin].  An exception of a handler replaces the one it handles;
    an exception of [fin] replaces whatever was in flight. *)
Definition try_except_finally
    (body : M unit) (on_interrupt : M unit) (on_exception : exn -> M unit)
    (fin : M unit) : M unit :=
  fun env st =>
    let '(r1, st1) := body env st in
    let '(r2, st2) :=
      match r1 with
      | Raise KeyboardInterrupt => on_interrupt env st1
      | Raise e => if is_Exception e then on_exception e env st1
                   else (Raise e, st1)
      | _ => (r1, st1)
      end in
    match r2 with
    | Running => (Running, st2)
    | _ =>
      match fin env st2 with
      | (Ok _, st3) => (r2, st3)
      | (other, st3) => (other, st3)
      end
    end.

(** [try: body  except Exception: pass]. *)
Definition try_except_pass (body : M unit) : M unit :=
  fun env st =>
    match body env st with
    | (Raise e, st') => if is_Exception e then (Ok tt, st') else (Raise e, st')
    | other => other
    end.

(** [s.encode()] and [b.decode()] on the UTF-8 representation. *)
Definition encode (s : string) : bytes := s.

Definition decode (b : bytes) : M string :=
  if utf8_valid b then ret b else raise UnicodeDecodeError.

(** ** Global variables (lines 67-78) *)

Definition MCU_VID_PID : string := "353F:A103".
Definition USE_ARGPARSE : bool := true.
Definition DEFAULT_MODE : string := "loopback".
Definition DEFAULT_BITRATE : Z := 1000.
Definition valid_bit_rates : list Z := [10; 20; 50; 100; 125; 250; 500; 750; 1000].

(** ** configure_can (lines 96-102) *)

Definition configure_can (port : Serial) (interface mode baud : string) : M unit :=
  call_ (EvWrite (portstr port)
           (encode ("set can-mode " ++ interface ++ " " ++ mode ++ CRLF))) ;;
  sleep 100 ;;
  call_ (EvWrite (portstr port)
           (encode ("set can-baudrate " ++ interface ++ " " ++ baud ++ CRLF))) ;;
  sleep 100 ;;
  n <- call (EvInWaiting (portstr port)) in_waiting ;;
  echo <- call (EvRead (portstr port) n) read_reply ;;
  text <- decode echo ;;
  print (Text text).

(** ** get_device_port (lines 105-114) *)

(** [sorted(all_ports)]: Python's sort is stable and compares with [<]
    only, here the [__lt__] of [ListPortInfo]. *)
Fixpoint insert_port (lt : ListPortInfo -> ListPortInfo -> bool)
    (x : ListPortInfo) (l : list ListPortInfo) : list ListPortInfo :=
  match l with
  | [] => [x]
  | y :: l' => if lt y x then y :: insert_port lt x l' else x :: l
  end.

Definition sorted (lt : ListPortInfo -> ListPortInfo -> bool)
    (l : list ListPortInfo) : list ListPortInfo :=
  fold_right (insert_port lt) [] l.

(** The [for] loop of lines 108-113.  [loc] is the argument [location] as given:
    [None] when it is left out.  [location in port.location] raises a
    [TypeError] when [port.location] is [None]. *)
Fixpoint scan_ports (dev_id : string) (loc : option string)
    (ports : list ListPortInfo) : M (option string) :=
  match ports with
  | [] => ret None
  | port :: rest =>
    if str_in dev_id (hwid port) then
      if truthy loc then
        match loc, location port with
        | Some marker, Some port_location =>
          if str_in marker port_location then
            print (PortLine port) ;;
            print (Text "***************") ;;
            ret (Some (device port))
          else scan_ports dev_id loc rest
        | _, _ => raise (TypeError "argument of type 'NoneType' is not iterable")
        end
      else scan_ports dev_id loc rest
    else scan_ports dev_id loc rest
  end.

Definition get_device_port (dev_id : string) (location : option string)
  : M (option string) :=
  all_ports <- call EvComports (fun env _ => comports env) ;;
  lt <- ask port_lt ;;
  scan_ports dev_id location (sorted lt all_ports).

(** ** main (lines 129-261)

    [mode] and [bit_rate] are what [parse_arguments] or the two defaults
    give.  [fuel] bounds the number of turns of the [while True] loop. *)

(** [serial.Serial(path)]: with a path the port is opened at once. *)
Definition serial_Serial (path : option string) : M Serial :=
  match path with
  | Some dev =>
    call (EvSerialOpen dev) (fun _ _ => {| portstr := dev; is_open := true |})
  | None => ret {| portstr := ""; is_open := false |}
  end.

(** [can.Bus(interface=.., channel=.., bitrate=..)]. *)
Definition can_Bus (interface channel : string) (bitrate : Z) : M Bus :=
  call (EvBusOpen interface channel bitrate)
       (fun _ t => {| bus_interface := interface; bus_channel := channel;
                      bus_bitrate := bitrate; bus_id := t |}).

(** A method of a variable that may hold [None]. *)
Definition method_of (v : option Bus) (name : string) : M Bus :=
  match v with
  | Some b => ret b
  | None => raise (AttributeError
              ("'NoneType' object has no attribute '" ++ name ++ "'"))
  end.

(** Lines 139-141. *)
Definition check_bit_rate (bit_rate : Z) : M unit :=
  if negb (existsb (Z.eqb bit_rate) valid_bit_rates) then
    print (Text ("Error: Invalid bit_rate. Please enter a value from "
                 ++ str_of_int_list valid_bit_rates ++ " kbps.")) ;;
    sys_exit 1
  else ret tt.

(** Lines 145-149: management port, then the two virtual CAN ports. *)
Definition resolve_paths : M (option string * option string * option string) :=
  mgmt_port <- get_device_port MCU_VID_PID (Some ".0") ;;
  can1_port <- get_device_port MCU_VID_PID (Some ".2") ;;
  can2_port <- get_device_port MCU_VID_PID (Some ".4") ;;
  ret (mgmt_port, can1_port, can2_port).

(** Lines 151-160. *)
Definition check_paths (mode : string)
    (mgmt_port can1_port can2_port : option string) : M unit :=
  (if negb (truthy mgmt_port) then
     print (Text "Error: MCU management port not found. Please check configurations and connections.") ;;
     sys_exit 1
   else ret tt) ;;
  if (mode =? "loopback")%string
     && negb (truthy can1_port && truthy can2_port) then
    print (Text "Error: CAN ports necessary for loopback not found. Please check configurations and connections.") ;;
    sys_exit 1
  else if ((mode =? "send")%string || (mode =? "recv")%string)
          && negb (truthy can1_port && truthy can2_port) then
    print (Text "Error: CAN ports necessary for this script. Please check configurations and connections.") ;;
    sys_exit 1
  else ret tt.

(** Lines 164-189: open and configure, up to the loop. *)
Definition main_configure (mode : string) (bit_rate : Z)
    (mgmt_port can1_port can2_port : option string) : M unit :=
  p <- serial_Serial mgmt_port ;;
  modify (set_port (Some p)) ;;
  call_ (EvWrite (portstr p) CRLF) ;;
  sleep 100 ;;
  n <- call (EvInWaiting (portstr p)) in_waiting ;;
  _ <- call (EvRead (portstr p) n) read_reply ;;
  print (Text "Configuring CAN ports...") ;;
  configure_can p "VCAN1" "slcan" (str_of_int bit_rate) ;;
  configure_can p "VCAN2" "slcan" (str_of_int bit_rate) ;;
  print (Text "CAN ports configured.") ;;
  (match can1_port with
   | Some channel =>
     if nonempty channel then
       b <- can_Bus "slcan" channel (bit_rate * 1000) ;;
       modify (set_bus1 (Some b))
     else ret tt
   | None => ret tt
   end) ;;
  (match can2_port with
   | Some channel =>
     if nonempty channel then
       b <- can_Bus "slcan" channel (bit_rate * 1000) ;;
       modify (set_bus2 (Some b))
     else ret tt
   | None => ret tt
   end) ;;
  print (Text ("Starting CAN bus mode: " ++ mode ++ "..." ++ NL ++ "Ctrl+C to exit")).

(** The frame of lines 205 and 227-230. *)
Definition make_message (msg_time : Z) (payload : string) : Message :=
  {| timestamp := msg_time; arbitration_id := 0x123;
     is_extended_id := true; data := encode payload |}.

(** Lines 196-238: the [while True] loop. *)
Fixpoint main_loop (fuel : nat) (mode : string) (number : Z)
    (is_increment : bool) : M unit :=
  match fuel with
  | O => fun _ st => (Running, st)
  | S fuel' =>
    if (mode =? "send")%string then
      let '(number, is_increment, payload) :=
        inc_dec_data_string number is_increment default_low default_high in
      msg_time <- call EvNow now_reply ;;
      let message := make_message msg_time payload in
      st <- get_state ;;
      b1 <- method_of (bus1 st) "send" ;;
      call_ (EvBusSend b1 message 200) ;;
      print (SentLine message) ;;
      sleep 100 ;;
      main_loop fuel' mode number is_increment
    else if (mode =? "recv")%string then
      st <- get_state ;;
      b1 <- method_of (bus1 st) "recv" ;;
      received_msg <- call (EvBusRecv b1) recv_reply ;;
      print (ReceivedLine received_msg) ;;
      main_loop fuel' mode number is_increment
    else if (mode =? "loopback")%string then
      let '(number, is_increment, payload) :=
        inc_dec_data_string number is_increment default_low default_high in
      msg_time <- call EvNow now_reply ;;
      let message := make_message msg_time payload in
      print (SentLine message) ;;
      st <- get_state ;;
      b1 <- method_of (bus1 st) "send" ;;
      call_ (EvBusSend b1 message 200) ;;
      b2 <- method_of (bus2 st) "recv" ;;
      received_msg <- call (EvBusRecv b2) recv_reply ;;
      print (ReceivedLine received_msg) ;;
      sleep 100 ;;
      main_loop fuel' mode number is_increment
    else main_loop fuel' mode number is_increment
  end.

(** Lines 244-261: the [finally] block. *)
Definition main_finally : M unit :=
  sleep 1000 ;;
  st <- get_state ;;
  (match port st with
   | Some p =>
     if is_open p then
       try_except_pass
         (call_ (EvResetInput (portstr p)) ;;
          call_ (EvResetOutput (portstr p)) ;;
          call_ (EvClose (portstr p)) ;;
          modify (set_port (Some {| portstr := portstr p; is_open := false |})))
     else ret tt
   | None => ret tt
   end) ;;
  (match bus1 st with
   | Some b => call_ (EvBusShutdown b)
   | None => ret tt
   end) ;;
  (match bus2 st with
   | Some b => call_ (EvBusShutdown b)
   | None => ret tt
   end).

Definition main (fuel : nat) (mode : string) (bit_rate : Z) : M unit :=
  check_bit_rate bit_rate ;;
  paths <- resolve_paths ;;
  let '(mgmt_port, can1_port, can2_port) := paths in
  check_paths mode mgmt_port can1_port can2_port ;;
  modify (fun st => set_bus2 None (set_bus1 None (set_port None st))) ;;
  try_except_finally
    (main_configure mode bit_rate mgmt_port can1_port can2_port ;;
     main_loop fuel mode 0 true)
    (print (Text (NL ++ "Operation terminated by user.")))
    (fun e => print (ErrorLine e))
    main_finally.

(** ** Words of the specification that the theorems use *)

(** The three modes of the command line. *)
Definition is_session_mode (mode : string) : Prop :=
  mode = "send" \/ mode = "recv" \/ mode = "loopback".

(** No call so far touched the device. *)
Definition no_device_io (st : State) : Prop :=
  Forall (fun ev => is_device_io ev = false) (events st).

(** No call so far opened a serial port or a CAN bus. *)
Definition nothing_opened (st : State) : Prop :=
  Forall (fun ev => is_open_event ev = false) (events st).

(** A piece of the script that is safe before the session starts: it
    touches no device, it returns or raises, and what it raises ends the
    process with a status other than 0. *)
Definition startup_safe {A} (m : M A) : Prop :=
  forall env st r st',
    m env st = (r, st') ->
    no_device_io st ->
    no_device_io st' /\
    match r with
    | Ok _ => True
    | Raise e => exit_status e <> 0
    | Running => False
    end.

(** The port passes both filters of [get_device_port]. *)
Definition port_matches (dev_id marker : string) (p : ListPortInfo) : bool :=
  str_in dev_id (hwid p) &&
  match location p with
  | Some port_location => str_in marker port_location
  | None => false
  end.

(** ** The calls of each part of the script when none of them raises *)

(** The events [evs] appended to a state, oldest first. *)
Definition pushes (evs : list event) (st : State) : State :=
  fold_left (fun s ev => push ev s) evs st.

(** [configure_can]; [n] and [echo] are what the port answers. *)
Definition configure_can_calls (dev interface mode baud : string)
    (n : Z) (echo : bytes) : list event :=
  [ EvWrite dev ("set can-mode " ++ interface ++ " " ++ mode ++ CRLF);
    EvSleep 100;
    EvWrite dev ("set can-baudrate " ++ interface ++ " " ++ baud ++ CRLF);
    EvSleep 100;
    EvInWaiting dev;
    EvRead dev n;
    EvPrint (Text echo) ].

(** What the specification says of [configure_can]: whatever the device
    echoed is logged. *)
Definition configure_can_logs_any_echo (env : Env) (st : State)
    (p : Serial) (interface mode baud : string) : Prop :=
  (forall i, (i < 7)%nat -> raises env (i + clock st)%nat = None) ->
  configure_can p interface mode baud env st =
  (Ok tt,
   pushes (configure_can_calls (portstr p) interface mode baud
             (in_waiting env (4 + clock st)%nat)
             (read_reply env (5 + clock st)%nat)) st).

(** Lines 164-189 from time [t] on, with the paths [d0], [d1] and [d2] of
    the management port and of the two CAN ports. *)
Definition main_configure_calls (env : Env) (t : nat) (mode : string)
    (bit_rate : Z) (d0 d1 d2 : string) : list event :=
  [ EvSerialOpen d0;
    EvWrite d0 CRLF;
    EvSleep 100;
    EvInWaiting d0;
    EvRead d0 (in_waiting env (3 + t)%nat);
    EvPrint (Text "Configuring CAN ports...") ]
  ++ configure_can_calls d0 "VCAN1" "slcan" (str_of_int bit_rate)
       (in_waiting env (10 + t)%nat) (read_reply env (11 + t)%nat)
  ++ configure_can_calls d0 "VCAN2" "slcan" (str_of_int bit_rate)
       (in_waiting env (17 + t)%nat) (read_reply env (18 + t)%nat)
  ++ [ EvPrint (Text "CAN ports configured.");
       EvBusOpen "slcan" d1 (bit_rate * 1000);
       EvBusOpen "slcan" d2 (bit_rate * 1000);
       EvPrint (Text ("Starting CAN bus mode: " ++ mode ++ "..." ++ NL
                      ++ "Ctrl+C to exit")) ].

(** The two handles that [main_configure] makes when it starts at [t]. *)
Definition bus1_at (t : nat) (bit_rate : Z) (d1 : string) : Bus :=
  {| bus_interface := "slcan"; bus_channel := d1;
     bus_bitrate := bit_rate * 1000; bus_id := (21 + t)%nat |}.

Definition bus2_at (t : nat) (bit_rate : Z) (d2 : string) : Bus :=
  {| bus_interface := "slcan"; bus_channel := d2;
     bus_bitrate := bit_rate * 1000; bus_id := (22 + t)%nat |}.

(** The state in which the loop starts when [main_configure] ran from
    [st0] without a fault. *)
Definition loop_start (env : Env) (st0 : State) (d0 d1 d2 : string)
    (mode : string) (bit_rate : Z) : State :=
  {| clock := 24 + clock st0;
     events := (rev (main_configure_calls env (clock st0) mode bit_rate
                       d0 d1 d2) ++ events st0)%list;
     port := Some {| portstr := d0; is_open := true |};
     bus1 := Some (bus1_at (clock st0) bit_rate d1);
     bus2 := Some (bus2_at (clock st0) bit_rate d2) |}.

(** [turns] turns of the send loop from time [t] on: time stamp, send on
    channel 1 with a timeout of 200 ms, report, sleep 100 ms. *)
Fixpoint send_calls (env : Env) (b1 : Bus) (turns t : nat)
    (number : Z) (is_increment : bool) : list event :=
  match turns with
  | O => []
  | S turns' =>
    let '(number', is_increment', payload) :=
      inc_dec_data_string number is_increment default_low default_high in
    let message := make_message (now_reply env t) payload in
    [ EvNow; EvBusSend b1 message 200; EvPrint (SentLine message);
      EvSleep 100 ]
    ++ send_calls env b1 turns' (4 + t) number' is_increment'
  end.

(** [turns] turns of the loopback loop from time [t] on. *)
Fixpoint loopback_calls (env : Env) (b1 b2 : Bus) (turns t : nat)
    (number : Z) (is_increment : bool) : list event :=
  match turns with
  | O => []
  | S turns' =>
    let '(number', is_increment', payload) :=
      inc_dec_data_string number is_increment default_low default_high in
    let message := make_message (now_reply env t) payload in
    [ EvNow; EvPrint (SentLine message); EvBusSend b1 message 200;
      EvBusRecv b2; EvPrint (ReceivedLine (recv_reply env (3 + t)%nat));
      EvSleep 100 ]
    ++ loopback_calls env b1 b2 turns' (6 + t) number' is_increment'
  end.

(** The [finally] block with the port open and both handles made. *)
Definition teardown_calls (d0 : string) (b1 b2 : Bus) : list event :=
  [ EvSleep 1000; EvResetInput d0; EvResetOutput d0; EvClose d0;
    EvBusShutdown b1; EvBusShutdown b2 ].

(** The guarded port step of the [finally] block from time [t] on: it
    stops at the first of its calls that raises. *)
Definition port_step_calls (env : Env) (t : nat) (d0 : string) : list event :=
  match raises env t with
  | Some _ => [EvResetInput d0]
  | None =>
    match raises env (S t) with
    | Some _ => [EvResetInput d0; EvResetOutput d0]
    | None => [EvResetInput d0; EvResetOutput d0; EvClose d0]
    end
  end.

(** Making the calls [evs] one after the other, up to the first that
    raises. *)
Fixpoint replay (env : Env) (evs : list event) (st : State)
  : option fault * State :=
  match evs with
  | [] => (None, st)
  | ev :: rest =>
    match raises env (clock st) with
    | Some f => (Some f, push ev st)
    | None => replay env rest (push ev st)
    end
  end.

(** What a loop that makes the calls [evs] and never returns comes to. *)
Definition loop_outcome (env : Env) (evs : list event) (st : State)
  : result unit * State :=
  match replay env evs st with
  | (None, st') => (Running, st')
  | (Some f, st') => (Raise (exn_of_fault f), st')
  end.

(** ** A test bench *)

Module Bench.

(** The card as a Linux host lists it: three ports of one USB device, told
    apart by the interface number at the end of the location. *)
Definition usb_port (dev loc : string) : ListPortInfo :=
  {| device := dev; description := "I.MX RT1052";
     hwid := "USB VID:PID=353F:A103 LOCATION=" ++ loc;
     location := Some loc |}.

Definition card_ports : list ListPortInfo :=
  [ usb_port "/dev/ttyACM2" "1-2:1.4";
    usb_port "/dev/ttyACM0" "1-2:1.0";
    usb_port "/dev/ttyACM1" "1-2:1.2" ].

(** The card with the second CAN port missing. *)
Definition card_without_can2 : list ListPortInfo :=
  [ usb_port "/dev/ttyACM1" "1-2:1.2";
    usb_port "/dev/ttyACM0" "1-2:1.0" ].

(** A port of the card for which the host gives no location. *)
Definition port_without_location : ListPortInfo :=
  {| device := "COM7"; description := "USB Serial Device (COM7)";
     hwid := "USB VID:PID=353F:A103 SER=0001"; location := None |}.

(** Ports in the order of their device names. *)
Definition by_device (a b : ListPortInfo) : bool :=
  String.ltb (device a) (device b).

(** One byte that is not UTF-8. *)
Definition garbled : bytes := String (ascii_of_nat 255) EmptyString.

(** A host with the ports [ports], on which the calls raise as [faults]
    says and the management port always answers [echo]. *)
Definition bench (ports : list ListPortInfo) (faults : nat -> option fault)
    (echo : bytes) : Env :=
  {| raises := faults; comports := ports; port_lt := by_device;
     in_waiting := fun _ => Z.of_nat (String.length echo);
     read_reply := fun _ => echo;
     recv_reply := fun t => make_message (Z.of_nat t) "hello_1";
     now_reply := fun t => Z.of_nat t |}.

Definition no_fault : nat -> option fault := fun _ => None.

(** One fault at time [t]. *)
Definition fault_at (t : nat) (f : fault) : nat -> option fault :=
  fun n => if Nat.eqb n t then Some f else None.

(** Faults at given times. *)
Fixpoint fault_schedule (l : list (nat * fault)) : nat -> option fault :=
  fun n =>
    match l with
    | [] => None
    | (t, f) :: rest => if Nat.eqb n t then Some f else fault_schedule rest n
    end.

(** A loopback session at 1000 kbit/s in which the user interrupts the
    first receive (call 36) and the card is gone by the time the channel-1
    handle is shut down (call 42). *)
Definition unplugged_faults : nat -> option fault :=
  fault_schedule
    [ (36%nat, Interrupt);
      (42%nat, Failure "SerialException" "write failed") ].

End Bench.

Import Bench.

(** ** More words for the properties of the code *)

(** [n] calls of the generator in a row, each given the counter and the
    direction that the call before returned, as the loop of [main] does
    (lines 199 and 221); the payloads are dropped. *)
Fixpoint generator_run (n : nat) (number : Z) (is_increment : bool)
    (low high : Z) : Z * bool :=
  match n with
  | O => (number, is_increment)
  | S n' =>
    let '(number', is_increment', _) :=
      inc_dec_data_string number is_increment low high in
    generator_run n' number' is_increment' low high
  end.

(** The same host with its ports listed as [ports]. *)
Definition with_comports (ports : list ListPortInfo) (env : Env) : Env :=
  {| raises := raises env; comports := ports; port_lt := port_lt env;
     in_waiting := in_waiting env; read_reply := read_reply env;
     recv_reply := recv_reply env; now_reply := now_reply env |}.

(** [lt] orders the ports of [l] strictly and totally, as the natural order
    of device names does for ports with distinct names of one host. *)
Definition strict_total_on (lt : ListPortInfo -> ListPortInfo -> bool)
    (l : list ListPortInfo) : Prop :=
  (forall a b c, In a l -> In b l -> In c l ->
                 lt a b = true -> lt b c = true -> lt a c = true) /\
  (forall a b, In a l -> In b l -> lt a b = true -> lt b a = false) /\
  (forall a b, In a l -> In b l -> lt a b = true \/ a = b \/ lt b a = true).

(** What a piece of the script that makes the calls [evs] and then
    returns comes to: it stops at the first call that raises. *)
Definition calls_outcome (env : Env) (evs : list event) (st : State)
  : result unit * State :=
  match replay env evs st with
  | (None, st') => (Ok tt, st')
  | (Some f, st') => (Raise (exn_of_fault f), st')
  end.

(** Whatever the environment does, the calls that [m] adds to the trace
    form a list that satisfies [Q]. *)
Definition emits {A} (Q : list event -> Prop) (m : M A) : Prop :=
  forall env st r st',
    m env st = (r, st') ->
    exists l, trace st' = (trace st ++ l)%list /\ Q l.

(** All the calls that [m] makes satisfy [P]. *)
Definition only {A} (P : event -> Prop) (m : M A) : Prop :=
  emits (Forall P) m.

(** The five lines that [main] writes to the management port: the line
    end of line 168 and the four commands of lines 176-177. *)
Definition management_lines (bit_rate : Z) : list bytes :=
  [ CRLF;
    "set can-mode VCAN1 slcan" ++ CRLF;
    "set can-baudrate VCAN1 " ++ str_of_int bit_rate ++ CRLF;
    "set can-mode VCAN2 slcan" ++ CRLF;
    "set can-baudrate VCAN2 " ++ str_of_int bit_rate ++ CRLF ].

(** A frame as the loops build it: extended id 0x123 and a payload
    [hello_d] with one decimal digit [d]. *)
Definition generated_frame (m : Message) : Prop :=
  arbitration_id m = 0x123 /\ is_extended_id m = true /\
  exists d, 0 <= d <= 9 /\ data m = encode ("hello_" ++ str_of_int d).

(** The calls that a session in mode [mode] at [bit_rate] can make. *)
Definition session_event (mode : string) (bit_rate : Z) (ev : event) : Prop :=
  match ev with
  | EvSleep ms => ms = 100 \/ ms = 1000
  | EvNow => mode = "send" \/ mode = "loopback"
  | EvWrite _ b => In b (management_lines bit_rate)
  | EvBusOpen interface channel bitrate =>
    interface = "slcan" /\ nonempty channel = true /\
    bitrate = bit_rate * 1000
  | EvBusSend _ m timeout_ms =>
    (mode = "send" \/ mode = "loopback") /\ timeout_ms = 200 /\
    generated_frame m
  | EvBusRecv _ => mode = "recv" \/ mode = "loopback"
  | _ => True
  end.

(** The calls that a session can make before its [finally] block: those
    of [session_event] but for the calls of the teardown. *)
Definition body_event (mode : string) (bit_rate : Z) (ev : event) : Prop :=
  match ev with
  | EvSleep ms => ms = 100
  | EvResetInput _ | EvResetOutput _ | EvClose _ | EvBusShutdown _ => False
  | _ => session_event mode bit_rate ev
  end.

(** The calls of the port step of the [finally] block in state [st]. *)
Definition port_calls (st : State) : list event :=
  match port st with
  | Some p =>
    if is_open p then
      [ EvResetInput (portstr p); EvResetOutput (portstr p);
        EvClose (portstr p) ]
    else []
  | None => []
  end.

(** The shutdowns of the [finally] block in state [st]. *)
Definition shutdown_calls (st : State) : list event :=
  match bus1 st with Some b => [EvBusShutdown b] | None => [] end
  ++ match bus2 st with Some b => [EvBusShutdown b] | None => [] end.

(** The calls of a [finally] block that starts in state [st]: the settle
    delay, then the first calls of the port step, then the first
    shutdowns. *)
Definition teardown_shape (st : State) (l : list event) : Prop :=
  exists i j,
    l = (EvSleep 1000 :: firstn i (port_calls st)
         ++ firstn j (shutdown_calls st))%list.

(** The calls of the two phases of a session. *)
Definition is_shutdown (ev : event) : Prop := exists b, ev = EvBusShutdown b.

Definition is_close (ev : event) : Prop := exists d, ev = EvClose d.

(** A call on the management port. *)
Definition on_port (ev : event) : Prop :=
  match ev with
  | EvSerialOpen _ | EvWrite _ _ | EvInWaiting _ | EvRead _ _
  | EvResetInput _ | EvResetOutput _ | EvClose _ => True
  | _ => False
  end.

(** A write puts one of [lines] on the port. *)
Definition writes_one_of (lines : list bytes) (ev : event) : Prop :=
  match ev with
  | EvWrite _ b => In b lines
  | _ => True
  end.

(** A bus is opened on a named channel with this interface and bit rate. *)
Definition opens_bus_as (interface : string) (bitrate : Z) (ev : event)
  : Prop :=
  match ev with
  | EvBusOpen i channel b =>
    i = interface /\ nonempty channel = true /\ b = bitrate
  | _ => True
  end.

(** A send has a timeout of 200 ms and carries a generated frame, whose
    payload fits a CAN frame. *)
Definition sends_generated_frame (ev : event) : Prop :=
  match ev with
  | EvBusSend _ m timeout_ms =>
    timeout_ms = 200 /\ generated_frame m /\
    (String.length (data m) <= max_payload_length)%nat
  | _ => True
  end.

(** Frames are built and sent in the modes send and loopback only,
    received in the modes recv and loopback only. *)
Definition uses_buses_of (mode : string) (ev : event) : Prop :=
  match ev with
  | EvNow | EvBusSend _ _ _ => mode = "send" \/ mode = "loopback"
  | EvBusRecv _ => mode = "recv" \/ mode = "loopback"
  | _ => True
  end.


(** The state that a [finally] block leaves when it starts in [st] and none
    of its calls raises: all its calls are made, and a port that was open
    is closed. *)
Definition after_teardown (st : State) : State :=
  let st' :=
    pushes (EvSleep 1000 :: port_calls st ++ shutdown_calls st) st in
  match port st with
  | Some p =>
    if is_open p then
      set_port (Some {| portstr := portstr p; is_open := false |}) st'
    else st'
  | None => st'
  end.

(** ** Proof steps *)

(** One more call that does not raise. *)
Ltac quiet_step H := cbn [clock push]; rewrite H; cbn [clock push].

(** A run of calls none of which raises. *)
Ltac quiet_run Hq :=
  repeat (rewrite Hq by lia;
          cbn [clock push set_port set_bus1 set_bus2 portstr]).

(** * Theorems *)

(** ** The model on small inputs *)

Example str_of_int_examples :
  (str_of_int 0, str_of_int 1000, str_of_int (-5)) = ("0", "1000", "-5").
Proof. reflexivity. Qed.

Example str_of_int_list_valid_bit_rates :
  str_of_int_list valid_bit_rates
  = "[10, 20, 50, 100, 125, 250, 500, 750, 1000]".
Proof. reflexivity. Qed.

Example str_in_examples :
  str_in ".2" "1-2:1.2" = true /\ str_in ".4" "1-2:1.2" = false /\
  str_in "" "" = true /\ str_in MCU_VID_PID "USB VID:PID=353F:A103" = true /\
  str_in MCU_VID_PID "n/a" = false.
Proof. repeat split. Qed.

Example utf8_valid_examples :
  utf8_valid "hello_1" = true /\
  utf8_valid (String (ascii_of_nat 195) (String (ascii_of_nat 169) "")) = true /\
  utf8_valid (String (ascii_of_nat 192) (String (ascii_of_nat 128) "")) = false /\
  utf8_valid (String (ascii_of_nat 226) (String (ascii_of_nat 130) "")) = false /\
  utf8_valid garbled = false.
Proof. repeat split. Qed.

Example sorted_card_ports :
  map device (sorted by_device card_ports)
  = ["/dev/ttyACM0"; "/dev/ttyACM1"; "/dev/ttyACM2"].
Proof. reflexivity. Qed.

Example resolve_paths_card :
  fst (resolve_paths (bench card_ports no_fault "") initial)
  = Ok (Some "/dev/ttyACM0", Some "/dev/ttyACM1", Some "/dev/ttyACM2").
Proof. reflexivity. Qed.

Example inc_dec_data_string_examples :
  inc_dec_data_string 0 false 0 9 = (1, true, "hello_1") /\
  inc_dec_data_string 5 true 0 9 = (6, true, "hello_6") /\
  inc_dec_data_string 5 false 0 9 = (4, false, "hello_4").
Proof. repeat split. Qed.

(** ** The payload generator *)

(** C8: called with number 9, direction up and the bounds 0 and 9, the
    generator returns [(8, False, 'hello_8')]: at the high bound the
    direction flips before the counter moves. *)
Theorem inc_dec_data_string_flips_at_high :
  inc_dec_data_string 9 true 0 9 = (8, false, "hello_8").
Proof. reflexivity. Qed.

Lemma one_digit (d : Z) :
  0 <= d <= 9 -> String.length (str_of_int d) = 1%nat.
Proof.
  intros Hd.
  assert (Hin : In d [0; 1; 2; 3; 4; 5; 6; 7; 8; 9]) by (cbn; lia).
  cbn in Hin.
  repeat (destruct Hin as [<-|Hin]; [reflexivity|]). contradiction.
Qed.

Lemma length_hello (s : string) :
  String.length ("hello_" ++ s) = (6 + String.length s)%nat.
Proof. reflexivity. Qed.

Lemma inc_dec_counter (number : Z) (is_increment : bool) (low high : Z) :
  low < high -> low <= number <= high ->
  low <= fst (fst (inc_dec_data_string number is_increment low high)) <= high.
Proof.
  intros Hlt Hin. unfold inc_dec_data_string. cbn [fst].
  destruct (Z.eqb_spec number low) as [->|Hlow].
  - lia.
  - destruct (Z.eqb_spec number high) as [->|Hhigh].
    + lia.
    + destruct is_increment; lia.
Qed.

(** C9: with [low < high] and the counter in [low, high], the counter that
    comes back is in [low, high] again; with the default bounds 0 and 9 the
    payload is [hello_] and one decimal digit, 7 bytes, which fits the 8
    bytes of a CAN frame. *)
Theorem inc_dec_data_string_stays_in_bounds
    (number : Z) (is_increment : bool) (low high : Z) :
  low < high -> low <= number <= high ->
  let '(number', _, payload) :=
    inc_dec_data_string number is_increment low high in
  low <= number' <= high /\
  (low = default_low -> high = default_high ->
   (exists d : Z, 0 <= d <= 9 /\ payload = "hello_" ++ str_of_int d /\
      String.length (str_of_int d) = 1%nat) /\
   String.length (encode payload) = 7%nat /\
   (String.length (encode payload) <= max_payload_length)%nat).
Proof.
  intros Hlt Hin.
  pose proof (inc_dec_counter number is_increment low high Hlt Hin) as Hc.
  unfold inc_dec_data_string in *. cbn [fst] in Hc.
  set (n' := if (if number =? low then true
                 else if number =? high then false else is_increment)
             then number + 1 else number - 1) in *.
  split; [exact Hc|].
  unfold default_low, default_high. intros -> ->.
  pose proof (one_digit n' Hc) as Hd.
  split; [exists n'; auto|].
  unfold encode, max_payload_length.
  rewrite length_hello, Hd. cbn. lia.
Qed.

Lemma inc_dec_data_string_stays_in_bounds_witness :
  let '(number', _, payload) := inc_dec_data_string 9 true 0 9 in
  0 <= number' <= 9 /\
  (0 = default_low -> 9 = default_high ->
   (exists d : Z, 0 <= d <= 9 /\ payload = "hello_" ++ str_of_int d /\
      String.length (str_of_int d) = 1%nat) /\
   String.length (encode payload) = 7%nat /\
   (String.length (encode payload) <= max_payload_length)%nat).
Proof.
  apply (inc_dec_data_string_stays_in_bounds 9 true 0 9); lia.
Defined.

(** ** Running the monad *)

Lemma run_call_ok {A} (ev : event) (reply : Env -> nat -> A) env st :
  raises env (clock st) = None ->
  call ev reply env st = (Ok (reply env (clock st)), push ev st).
Proof. intros H. unfold call. now rewrite H. Qed.

Lemma run_call_fault {A} (ev : event) (reply : Env -> nat -> A) env st f :
  raises env (clock st) = Some f ->
  call ev reply env st = (Raise (exn_of_fault f), push ev st).
Proof. intros H. unfold call. now rewrite H. Qed.

Lemma exit_status_fault (f : fault) : exit_status (exn_of_fault f) <> 0.
Proof. destruct f; cbn; lia. Qed.

Lemma open_event_is_device_io (ev : event) :
  is_device_io ev = false -> is_open_event ev = false.
Proof. destruct ev; cbn; congruence. Qed.

Lemma no_device_io_nothing_opened (st : State) :
  no_device_io st -> nothing_opened st.
Proof.
  unfold no_device_io, nothing_opened. intros H.
  eapply Forall_impl; [|exact H]. apply open_event_is_device_io.
Qed.

Lemma no_device_io_push (ev : event) (st : State) :
  is_device_io ev = false -> no_device_io st -> no_device_io (push ev st).
Proof. intros Hev H. constructor; assumption. Qed.

(** ** get_device_port *)

Lemma scan_ports_without_location dev_id loc ports env st :
  truthy loc = false ->
  scan_ports dev_id loc ports env st = (Ok None, st).
Proof.
  intros Hloc. induction ports as [|p rest IH]; cbn.
  - reflexivity.
  - rewrite Hloc. destruct (str_in dev_id (hwid p)); exact IH.
Qed.

(** C10: with the location left out ([None]) or empty, [get_device_port]
    returns [None] for every device id and every list of attached ports,
    whatever their hardware ids: it lists the ports and prints nothing. *)
Theorem get_device_port_without_location
    (env : Env) (st : State) (dev_id : string) (loc : option string) :
  truthy loc = false ->
  raises env (clock st) = None ->
  get_device_port dev_id loc env st = (Ok None, push EvComports st).
Proof.
  intros Hloc Hq. unfold get_device_port, bind.
  rewrite (run_call_ok _ _ _ _ Hq).
  apply scan_ports_without_location. exact Hloc.
Qed.

Lemma get_device_port_without_location_witness :
  get_device_port MCU_VID_PID None (bench card_ports no_fault "") initial
  = (Ok None, push EvComports initial).
Proof.
  apply (get_device_port_without_location
           (bench card_ports no_fault "") initial MCU_VID_PID None);
    reflexivity.
Defined.

(** ** Before the session: nothing is opened *)

Lemma safe_ret {A} (a : A) : startup_safe (ret a).
Proof. intros env st r st' H Hio. inversion H; subst. auto. Qed.

Lemma safe_raise {A} (e : exn) :
  exit_status e <> 0 -> startup_safe (@raise A e).
Proof. intros He env st r st' H Hio. inversion H; subst. auto. Qed.

Lemma safe_call {A} (ev : event) (reply : Env -> nat -> A) :
  is_device_io ev = false -> startup_safe (call ev reply).
Proof.
  intros Hev env st r st' H Hio. unfold call in H.
  destruct (raises env (clock st)) as [f|]; inversion H; subst;
    split; auto using no_device_io_push, exit_status_fault.
Qed.

Lemma safe_bind {A B} (m : M A) (k : A -> M B) :
  startup_safe m -> (forall a, startup_safe (k a)) -> startup_safe (bind m k).
Proof.
  intros Hm Hk env st r st' H Hio. unfold bind in H.
  destruct (m env st) as [[a|e|] st1] eqn:E;
    destruct (Hm _ _ _ _ E Hio) as [Hio1 Hr].
  - exact (Hk a _ _ _ _ H Hio1).
  - inversion H; subst. auto.
  - contradiction.
Qed.

Lemma safe_print (p : printed) : startup_safe (print p).
Proof. now apply safe_call. Qed.

Lemma safe_sys_exit {A} : startup_safe (@sys_exit A 1).
Proof. apply safe_raise. cbn. lia. Qed.

Lemma safe_type_error {A} (msg : string) : startup_safe (@raise A (TypeError msg)).
Proof. apply safe_raise. cbn. lia. Qed.

Create HintDb startup discriminated.
#[local] Hint Resolve safe_ret safe_bind safe_print safe_sys_exit
  safe_type_error : startup.

Lemma safe_scan_ports dev_id loc ports :
  startup_safe (scan_ports dev_id loc ports).
Proof.
  induction ports as [|p rest IH]; cbn [scan_ports]; auto with startup.
  destruct (str_in dev_id (hwid p)); [|exact IH].
  destruct (truthy loc); [|exact IH].
  destruct loc as [marker|]; auto with startup.
  destruct (location p) as [port_location|]; auto with startup.
  destruct (str_in marker port_location); auto 6 with startup.
Qed.

Lemma safe_get_device_port dev_id loc :
  startup_safe (get_device_port dev_id loc).
Proof.
  unfold get_device_port.
  apply safe_bind; [now apply safe_call|intros all_ports].
  apply safe_bind; [|intros lt; apply safe_scan_ports].
  intros env st r st' H Hio. unfold ask in H. inversion H; subst. auto.
Qed.

#[local] Hint Resolve safe_get_device_port : startup.

Lemma safe_resolve_paths : startup_safe resolve_paths.
Proof. unfold resolve_paths. auto 8 with startup. Qed.

Lemma safe_check_bit_rate bit_rate : startup_safe (check_bit_rate bit_rate).
Proof. unfold check_bit_rate. destruct (negb _); auto with startup. Qed.

Lemma safe_check_paths mode mgmt_port can1_port can2_port :
  startup_safe (check_paths mode mgmt_port can1_port can2_port).
Proof.
  unfold check_paths. apply safe_bind.
  - destruct (negb _); auto with startup.
  - intros _. repeat (destruct (_ && _); auto with startup).
Qed.

Lemma no_device_io_initial : no_device_io initial.
Proof. constructor. Qed.

Lemma existsb_valid (bit_rate : Z) :
  existsb (Z.eqb bit_rate) valid_bit_rates = true <-> In bit_rate valid_bit_rates.
Proof.
  rewrite existsb_exists. split.
  - intros [x [Hin Heq]]. apply Z.eqb_eq in Heq. now subst.
  - intros Hin. exists bit_rate. split; [exact Hin|apply Z.eqb_refl].
Qed.

Lemma main_invalid_bit_rate
    (env : Env) (fuel : nat) (mode : string) (bit_rate : Z) :
  existsb (Z.eqb bit_rate) valid_bit_rates = false ->
  exists e st,
    main fuel mode bit_rate env initial = (Raise e, st) /\
    exit_status e <> 0 /\
    (raises env 0%nat = None -> e = SystemExit 1) /\
    (exists line, trace st = [EvPrint (Text line)]) /\
    no_device_io st /\ nothing_opened st.
Proof.
  intros Hex.
  unfold main, bind at 1, check_bit_rate. rewrite Hex. cbn [negb].
  unfold bind, print, call_, call, sys_exit, raise. cbn [clock initial].
  assert (Hio : no_device_io (push (EvPrint (Text
            ("Error: Invalid bit_rate. Please enter a value from "
             ++ str_of_int_list valid_bit_rates ++ " kbps."))) initial))
    by (apply no_device_io_push; [reflexivity|constructor]).
  destruct (raises env 0%nat) as [f|].
  - eexists _, _. split; [reflexivity|].
    split; [apply exit_status_fault|]. split; [discriminate|].
    split; [eexists; reflexivity|].
    split; [exact Hio|exact (no_device_io_nothing_opened _ Hio)].
  - eexists _, _. split; [reflexivity|].
    split; [cbn; lia|]. split; [reflexivity|].
    split; [eexists; reflexivity|].
    split; [exact Hio|exact (no_device_io_nothing_opened _ Hio)].
Qed.

(** C4: for every bit rate outside the list 10, 20, 50, 100, 125, 250, 500,
    750, 1000, [main] ends with an exception and a status other than 0
    ([SystemExit(1)] when the error message could be printed), and the one
    call it has made is that [print]: no port is opened, no device I/O. *)
Theorem invalid_bit_rate_rejected
    (env : Env) (fuel : nat) (mode : string) (bit_rate : Z) :
  ~ In bit_rate valid_bit_rates ->
  exists e st,
    main fuel mode bit_rate env initial = (Raise e, st) /\
    exit_status e <> 0 /\
    (raises env 0%nat = None -> e = SystemExit 1) /\
    (exists line, trace st = [EvPrint (Text line)]) /\
    no_device_io st /\ nothing_opened st.
Proof.
  intros Hbad. apply main_invalid_bit_rate.
  destruct (existsb _ _) eqn:E; [|reflexivity].
  apply existsb_valid in E. contradiction.
Qed.

Lemma invalid_bit_rate_rejected_witness :
  exists e st,
    main 5 "send" 800 (bench card_ports no_fault "") initial = (Raise e, st) /\
    exit_status e <> 0 /\
    (raises (bench card_ports no_fault "") 0%nat = None -> e = SystemExit 1) /\
    (exists line, trace st = [EvPrint (Text line)]) /\
    no_device_io st /\ nothing_opened st.
Proof.
  apply (invalid_bit_rate_rejected (bench card_ports no_fault "") 5 "send" 800).
  cbn. lia.
Defined.

Lemma check_paths_passes mode mgmt_port can1_port can2_port env st st' :
  is_session_mode mode ->
  check_paths mode mgmt_port can1_port can2_port env st = (Ok tt, st') ->
  truthy mgmt_port = true /\ truthy can1_port = true /\ truthy can2_port = true.
Proof.
  intros Hmode. unfold check_paths, bind, print, call_, call, sys_exit, raise.
  destruct (truthy mgmt_port); cbn [negb].
  2:{ destruct (raises env (clock st)); discriminate. }
  destruct (truthy can1_port), (truthy can2_port); cbn [negb andb];
    try (intros _; now auto);
    destruct Hmode as [-> | [-> | ->]]; cbn;
    destruct (raises env (clock st)); discriminate.
Qed.

Lemma check_paths_quiet mode mgmt_port can1_port can2_port env st e st' :
  raises env (clock st) = None ->
  check_paths mode mgmt_port can1_port can2_port env st = (Raise e, st') ->
  e = SystemExit 1.
Proof.
  intros Hq. unfold check_paths, bind, print, call_, call, sys_exit, raise, ret.
  destruct (negb (truthy mgmt_port)).
  { rewrite Hq. intros H. now inversion H. }
  destruct (_ && _).
  { rewrite Hq. intros H. now inversion H. }
  destruct (_ && _).
  { rewrite Hq. intros H. now inversion H. }
  discriminate.
Qed.

(** C3: in each of the modes send, recv and loopback, when the lookup of
    the management path, of the channel-1 path or of the channel-2 path
    gives no path, [main] ends with an exception and a status other than 0
    ([SystemExit(1)] when no call raised) before any serial port or CAN bus
    is opened, whatever the bit rate. *)
Theorem unresolved_path_rejected
    (env : Env) (fuel : nat) (mode : string) (bit_rate : Z)
    (mgmt_port can1_port can2_port : option string) (st0 : State) :
  is_session_mode mode ->
  resolve_paths env initial = (Ok (mgmt_port, can1_port, can2_port), st0) ->
  truthy mgmt_port = false \/ truthy can1_port = false \/
  truthy can2_port = false ->
  exists e st,
    main fuel mode bit_rate env initial = (Raise e, st) /\
    exit_status e <> 0 /\
    ((forall t, raises env t = None) -> e = SystemExit 1) /\
    no_device_io st /\ nothing_opened st.
Proof.
  intros Hmode Hres Hmiss.
  destruct (existsb (Z.eqb bit_rate) valid_bit_rates) eqn:Hvalid.
  - unfold main, bind at 1, check_bit_rate. rewrite Hvalid. cbn [negb ret].
    unfold bind at 1. rewrite Hres. unfold bind at 1.
    destruct (safe_resolve_paths _ _ _ _ Hres no_device_io_initial) as [Hio0 _].
    destruct (check_paths mode mgmt_port can1_port can2_port env st0)
      as [[u|e|] st] eqn:Hchk.
    + destruct u.
      destruct (check_paths_passes _ _ _ _ _ _ _ Hmode Hchk) as [H0 [H1 H2]].
      destruct Hmiss as [H|[H|H]]; congruence.
    + destruct (safe_check_paths _ _ _ _ _ _ _ _ Hchk Hio0) as [Hio He].
      exists e, st. split; [reflexivity|]. split; [exact He|].
      split; [|split; [exact Hio|exact (no_device_io_nothing_opened _ Hio)]].
      intros Hq. exact (check_paths_quiet _ _ _ _ _ _ _ _ (Hq _) Hchk).
    + destruct (safe_check_paths _ _ _ _ _ _ _ _ Hchk Hio0) as [_ []].
  - destruct (main_invalid_bit_rate env fuel mode bit_rate Hvalid)
      as [e [st [Hrun [He [Hq [_ [Hio Hop]]]]]]].
    exists e, st. repeat split; auto.
Qed.

Lemma unresolved_path_rejected_witness :
  exists e st,
    main 5 "send" 1000 (bench card_without_can2 no_fault "") initial
    = (Raise e, st) /\
    exit_status e <> 0 /\
    ((forall t, raises (bench card_without_can2 no_fault "") t = None) ->
     e = SystemExit 1) /\
    no_device_io st /\ nothing_opened st.
Proof.
  apply (unresolved_path_rejected (bench card_without_can2 no_fault "")
           5 "send" 1000 (Some "/dev/ttyACM0") (Some "/dev/ttyACM1") None
           (snd (resolve_paths (bench card_without_can2 no_fault "") initial))).
  - left. reflexivity.
  - vm_compute. reflexivity.
  - right. right. reflexivity.
Defined.

(** ** Strings: [str_in] is the substring test *)

Lemma prefix_app (sub s : string) :
  prefix sub s = true <-> exists rest, s = sub ++ rest.
Proof.
  revert s. induction sub as [|a sub IH]; intros s.
  - split; [intros _; now exists s|intros _; now destruct s].
  - destruct s as [|b s]; cbn.
    + split; [discriminate|intros [rest H]; discriminate].
    + destruct (Ascii.ascii_dec a b) as [->|Hne].
      * rewrite IH. split; intros [rest H]; exists rest.
        -- now rewrite H.
        -- now inversion H.
      * split; [discriminate|].
        intros [rest H]. cbn in H. congruence.
Qed.

Lemma str_in_correct (sub s : string) :
  str_in sub s = true <-> exists before after, s = before ++ sub ++ after.
Proof.
  induction s as [|c s IH]; cbn [str_in].
  - rewrite orb_false_r, prefix_app. split.
    + intros [rest H]. now exists "", rest.
    + intros [before [after H]]. destruct before; [now exists after|discriminate].
  - rewrite orb_true_iff, prefix_app, IH. split.
    + intros [[rest H]|[before [after H]]].
      * now exists "", rest.
      * exists (String c before), after. cbn. now rewrite H.
    + intros [before [after H]]. destruct before as [|b before].
      * left. now exists after.
      * right. exists before, after. cbn in H. now inversion H.
Qed.

Lemma scan_ports_first_match dev_id marker ports env st :
  nonempty marker = true ->
  (forall p, In p ports -> str_in dev_id (hwid p) = true ->
             location p <> None) ->
  scan_ports dev_id (Some marker) ports env st =
  match find (port_matches dev_id marker) ports with
  | Some p =>
    (print (PortLine p) ;; print (Text "***************") ;;
     ret (Some (device p))) env st
  | None => (Ok None, st)
  end.
Proof.
  intros Hm Hloc. induction ports as [|p rest IH]; cbn [scan_ports find].
  - reflexivity.
  - unfold port_matches at 1. cbn [truthy]. rewrite Hm.
    destruct (str_in dev_id (hwid p)) eqn:Hid; cbn [andb].
    + destruct (location p) as [port_location|] eqn:Hl.
      * destruct (str_in marker port_location); [reflexivity|].
        apply IH. intros q Hq. apply Hloc. now right.
      * exfalso. apply (Hloc p); auto. now left.
    + apply IH. intros q Hq. apply Hloc. now right.
Qed.

Lemma sorted_permutation lt (l : list ListPortInfo) :
  Permutation (sorted lt l) l.
Proof.
  assert (Hins : forall x l', Permutation (insert_port lt x l') (x :: l')).
  { intros x l'. induction l' as [|y l' IH]; cbn.
    - apply Permutation_refl.
    - destruct (lt y x).
      + eapply perm_trans; [apply perm_skip, IH|apply perm_swap].
      + apply Permutation_refl. }
  induction l as [|x l IH]; cbn.
  - apply perm_nil.
  - eapply perm_trans; [apply Hins|]. now apply perm_skip.
Qed.

(** X7: when every attached port that passes the hardware-id filter has a
    location and no call raises, [get_device_port] with a non-empty marker
    returns the device of the first port, in sorted order, that passes both
    filters, after printing two lines for it; when there is none it returns
    [None] and prints nothing. *)
Lemma get_device_port_first_match env st dev_id marker :
  nonempty marker = true ->
  (forall p, In p (comports env) -> str_in dev_id (hwid p) = true ->
             location p <> None) ->
  (forall t, (clock st <= t < 3 + clock st)%nat -> raises env t = None) ->
  get_device_port dev_id (Some marker) env st =
  match find (port_matches dev_id marker)
             (sorted (port_lt env) (comports env)) with
  | Some p =>
    (Ok (Some (device p)),
     pushes [EvComports; EvPrint (PortLine p); EvPrint (Text "***************")]
       st)
  | None => (Ok None, push EvComports st)
  end.
Proof.
  intros Hm Hloc Hq. unfold get_device_port, bind at 1.
  rewrite run_call_ok by (apply Hq; lia). unfold bind at 1, ask.
  rewrite scan_ports_first_match; [|exact Hm|].
  - destruct (find _ _) as [p|]; [|reflexivity].
    unfold bind, print, call_, call, ret. cbn [clock push].
    rewrite Hq by lia. cbn [clock push]. rewrite Hq by lia. reflexivity.
  - intros p Hp. apply Hloc.
    eapply Permutation_in; [apply sorted_permutation|exact Hp].
Qed.

(** C2, where the code departs from it: a port whose hardware id holds the
    vendor/product token but which has no location ([None]) satisfies no
    location filter, so the claim has [get_device_port] return [None]; the
    call raises a [TypeError] instead, at [location in port.location]. *)
Theorem get_device_port_raises_without_port_location :
  get_device_port MCU_VID_PID (Some ".0")
    (bench [port_without_location] no_fault "") initial
  = (Raise (TypeError "argument of type 'NoneType' is not iterable"),
     push EvComports initial)
  /\ find (port_matches MCU_VID_PID ".0") [port_without_location] = None.
Proof. split; reflexivity. Qed.

(** ** configure_can *)

Lemma configure_can_run env st p interface mode baud :
  (forall i, (i < 6)%nat -> raises env (i + clock st)%nat = None) ->
  let n := in_waiting env (4 + clock st)%nat in
  let echo := read_reply env (5 + clock st)%nat in
  let calls := configure_can_calls (portstr p) interface mode baud n echo in
  configure_can p interface mode baud env st =
  if utf8_valid echo then
    match raises env (6 + clock st)%nat with
    | None => (Ok tt, pushes calls st)
    | Some f => (Raise (exn_of_fault f), pushes calls st)
    end
  else (Raise UnicodeDecodeError, pushes (firstn 6 calls) st).
Proof.
  intros Hq.
  pose proof (Hq 0%nat ltac:(lia)) as H0. pose proof (Hq 1%nat ltac:(lia)) as H1.
  pose proof (Hq 2%nat ltac:(lia)) as H2. pose proof (Hq 3%nat ltac:(lia)) as H3.
  pose proof (Hq 4%nat ltac:(lia)) as H4. pose proof (Hq 5%nat ltac:(lia)) as H5.
  cbn [Nat.add] in *.
  unfold configure_can, bind, sleep, print, call_, call, decode, encode.
  cbn [clock push]. rewrite H0. quiet_step H1. quiet_step H2. quiet_step H3.
  quiet_step H4. quiet_step H5.
  destruct (utf8_valid _); cbn [ret raise clock push].
  - destruct (raises env _); reflexivity.
  - reflexivity.
Qed.

(** C5 as stated fails: when the card echoes a byte that is not UTF-8,
    [configure_can] raises [UnicodeDecodeError] and logs nothing. *)
Lemma configure_can_garbled_echo :
  ~ configure_can_logs_any_echo (bench card_ports no_fault garbled) initial
      {| portstr := "/dev/ttyACM0"; is_open := true |} "VCAN1" "slcan" "1000".
Proof.
  intros H. unfold configure_can_logs_any_echo in H.
  specialize (H (fun _ _ => eq_refl)). vm_compute in H. discriminate H.
Qed.

(** C5, amended: when none of its calls raises, [configure_can] writes
    exactly [set can-mode <INTERFACE> <MODE>] and CR LF, sleeps 100 ms,
    writes exactly [set can-baudrate <INTERFACE> <BITRATE>] and CR LF,
    sleeps 100 ms again and reads the bytes that wait on the port; if they
    are valid UTF-8 it prints them decoded, unparsed; if not, decoding
    raises [UnicodeDecodeError] and nothing is printed. *)
Theorem configure_can_protocol
    (env : Env) (st : State) (p : Serial) (interface mode baud : string) :
  (forall i, (i < 7)%nat -> raises env (i + clock st)%nat = None) ->
  let n := in_waiting env (4 + clock st)%nat in
  let echo := read_reply env (5 + clock st)%nat in
  let calls := configure_can_calls (portstr p) interface mode baud n echo in
  configure_can p interface mode baud env st =
  if utf8_valid echo then (Ok tt, pushes calls st)
  else (Raise UnicodeDecodeError, pushes (firstn 6 calls) st).
Proof.
  intros Hq. cbv zeta.
  rewrite configure_can_run by (intros i Hi; apply Hq; lia).
  cbv zeta. now rewrite (Hq 6%nat ltac:(lia)).
Qed.

Lemma configure_can_protocol_witness :
  configure_can {| portstr := "/dev/ttyACM0"; is_open := true |}
    "VCAN1" "slcan" "1000" (bench card_ports no_fault "ok") initial
  = (Ok tt,
     pushes (configure_can_calls "/dev/ttyACM0" "VCAN1" "slcan" "1000" 2 "ok")
       initial).
Proof.
  apply (configure_can_protocol (bench card_ports no_fault "ok") initial
           {| portstr := "/dev/ttyACM0"; is_open := true |}
           "VCAN1" "slcan" "1000").
  reflexivity.
Defined.

(** ** States and traces *)

Lemma clock_pushes evs st : clock (pushes evs st) = (length evs + clock st)%nat.
Proof.
  revert st. induction evs as [|ev evs IH]; intros st; cbn.
  - reflexivity.
  - unfold pushes in IH. rewrite IH. cbn. lia.
Qed.

Lemma events_pushes evs st :
  events (pushes evs st) = (rev evs ++ events st)%list.
Proof.
  revert st. induction evs as [|ev evs IH]; intros st; cbn.
  - reflexivity.
  - unfold pushes in IH. rewrite IH. cbn. now rewrite <- app_assoc.
Qed.

Lemma trace_pushes evs st : trace (pushes evs st) = (trace st ++ evs)%list.
Proof.
  unfold trace. rewrite events_pushes, rev_app_distr. now rewrite rev_involutive.
Qed.

Lemma locals_pushes evs st :
  port (pushes evs st) = port st /\ bus1 (pushes evs st) = bus1 st /\
  bus2 (pushes evs st) = bus2 st.
Proof.
  revert st. induction evs as [|ev evs IH]; intros st; cbn.
  - auto.
  - unfold pushes in IH. destruct (IH (push ev st)) as [H0 [H1 H2]].
    rewrite H0, H1, H2. auto.
Qed.

Lemma pushes_app evs1 evs2 st :
  pushes (evs1 ++ evs2)%list st = pushes evs2 (pushes evs1 st).
Proof. unfold pushes. apply fold_left_app. Qed.

Lemma replay_quiet env evs st :
  (forall t, (clock st <= t < length evs + clock st)%nat -> raises env t = None) ->
  replay env evs st = (None, pushes evs st).
Proof.
  revert st. induction evs as [|ev evs IH]; intros st Hq; cbn [replay].
  - reflexivity.
  - rewrite Hq by (cbn; lia). cbn [pushes fold_left]. apply IH.
    intros t Ht. apply Hq. cbn in *. lia.
Qed.

Lemma replay_fault env evs st j f :
  (j < length evs)%nat ->
  (forall t, (clock st <= t < j + clock st)%nat -> raises env t = None) ->
  raises env (j + clock st)%nat = Some f ->
  replay env evs st = (Some f, pushes (firstn (S j) evs) st).
Proof.
  revert st j. induction evs as [|ev evs IH]; intros st j Hj Hq Hf; cbn [replay].
  - cbn in Hj. lia.
  - destruct j as [|j].
    + cbn in Hf. rewrite Hf. reflexivity.
    + rewrite Hq by lia. cbn [firstn pushes fold_left].
      apply IH.
      * cbn in Hj. lia.
      * intros t Ht. apply Hq. cbn in *. lia.
      * cbn [clock push]. now replace (j + S (clock st))%nat with (S j + clock st)%nat by lia.
Qed.

(** ** The session loop *)

Lemma send_loop env b1 n :
  forall st number is_increment,
    bus1 st = Some b1 ->
    main_loop n "send" number is_increment env st =
    loop_outcome env (send_calls env b1 n (clock st) number is_increment) st.
Proof.
  induction n as [|n IH]; intros st number is_increment Hb.
  - reflexivity.
  - cbn [main_loop send_calls String.eqb Ascii.eqb Bool.eqb andb].
    destruct (inc_dec_data_string number is_increment default_low default_high)
      as [[number' is_increment'] payload].
    unfold loop_outcome, bind, print, sleep, call_, call, get_state.
    cbn [replay app clock push].
    destruct (raises env (clock st)); [reflexivity|].
    cbn [bus1 push]. rewrite Hb. cbn [method_of ret clock push].
    destruct (raises env (S (clock st))); [reflexivity|]. cbn [clock push].
    destruct (raises env (S (S (clock st)))); [reflexivity|]. cbn [clock push].
    destruct (raises env (S (S (S (clock st))))); [reflexivity|].
    rewrite (IH _ number' is_increment') by exact Hb.
    reflexivity.
Qed.

Lemma recv_loop_turn env b1 n st number is_increment :
  bus1 st = Some b1 ->
  raises env (clock st) = None -> raises env (S (clock st)) = None ->
  main_loop (S n) "recv" number is_increment env st =
  main_loop n "recv" number is_increment env
    (pushes [EvBusRecv b1; EvPrint (ReceivedLine (recv_reply env (clock st)))] st).
Proof.
  intros Hb H0 H1.
  cbn [main_loop String.eqb Ascii.eqb Bool.eqb andb].
  unfold bind, print, call_, call, get_state.
  rewrite Hb. cbn [method_of ret clock push]. rewrite H0.
  cbn [clock push]. rewrite H1. reflexivity.
Qed.

Lemma loopback_loop env b1 b2 n :
  forall st number is_increment,
    bus1 st = Some b1 -> bus2 st = Some b2 ->
    main_loop n "loopback" number is_increment env st =
    loop_outcome env
      (loopback_calls env b1 b2 n (clock st) number is_increment) st.
Proof.
  induction n as [|n IH]; intros st number is_increment Hb1 Hb2.
  - reflexivity.
  - cbn [main_loop loopback_calls String.eqb Ascii.eqb Bool.eqb andb].
    destruct (inc_dec_data_string number is_increment default_low default_high)
      as [[number' is_increment'] payload].
    unfold loop_outcome, bind, print, sleep, call_, call, get_state.
    cbn [replay app clock push].
    destruct (raises env (clock st)); [reflexivity|]. cbn [clock push].
    destruct (raises env (S (clock st))); [reflexivity|].
    cbn [bus1 bus2 push]. rewrite Hb1. cbn [method_of ret clock push].
    destruct (raises env (S (S (clock st)))); [reflexivity|].
    rewrite Hb2. cbn [method_of ret clock push].
    destruct (raises env (S (S (S (clock st))))); [reflexivity|]. cbn [clock push].
    destruct (raises env (S (S (S (S (clock st)))))); [reflexivity|]. cbn [clock push].
    destruct (raises env (S (S (S (S (S (clock st))))))); [reflexivity|].
    rewrite (IH _ number' is_increment') by assumption.
    reflexivity.
Qed.

Lemma length_send_calls env b1 n :
  forall t number is_increment,
    length (send_calls env b1 n t number is_increment) = (4 * n)%nat.
Proof.
  induction n as [|n IH]; intros t number is_increment; cbn [send_calls].
  - reflexivity.
  - destruct (inc_dec_data_string _ _ _ _) as [[number' is_increment'] payload].
    cbn [length app]. rewrite IH. lia.
Qed.

Lemma length_loopback_calls env b1 b2 n :
  forall t number is_increment,
    length (loopback_calls env b1 b2 n t number is_increment) = (6 * n)%nat.
Proof.
  induction n as [|n IH]; intros t number is_increment; cbn [loopback_calls].
  - reflexivity.
  - destruct (inc_dec_data_string _ _ _ _) as [[number' is_increment'] payload].
    cbn [length app]. rewrite IH. lia.
Qed.

(** ** Opening and configuring *)

Lemma main_configure_quiet env st mode bit_rate d0 d1 d2 :
  nonempty d1 = true -> nonempty d2 = true ->
  (forall t, (clock st <= t < 24 + clock st)%nat -> raises env t = None) ->
  utf8_valid (read_reply env (11 + clock st)%nat) = true ->
  utf8_valid (read_reply env (18 + clock st)%nat) = true ->
  main_configure mode bit_rate (Some d0) (Some d1) (Some d2) env st =
  (Ok tt,
   {| clock := 24 + clock st;
      events := (rev (main_configure_calls env (clock st) mode bit_rate d0 d1 d2)
                 ++ events st)%list;
      port := Some {| portstr := d0; is_open := true |};
      bus1 := Some (bus1_at (clock st) bit_rate d1);
      bus2 := Some (bus2_at (clock st) bit_rate d2) |}).
Proof.
  intros Hd1 Hd2 Hq Hu1 Hu2. cbn [Nat.add] in Hu1, Hu2.
  unfold main_configure, configure_can, serial_Serial, can_Bus, decode, encode.
  rewrite Hd1, Hd2.
  unfold bind, print, sleep, call_, call, modify, ret.
  cbn [clock push set_port set_bus1 set_bus2 portstr].
  quiet_run Hq. rewrite Hu1.
  cbn [clock push set_port set_bus1 set_bus2 portstr].
  quiet_run Hq. rewrite Hu2.
  cbn [clock push set_port set_bus1 set_bus2 portstr].
  quiet_run Hq. reflexivity.
Qed.

(** ** The [finally] block *)

Lemma main_finally_quiet env st d0 b1 b2 :
  port st = Some {| portstr := d0; is_open := true |} ->
  bus1 st = Some b1 -> bus2 st = Some b2 ->
  (forall t, (clock st <= t < 6 + clock st)%nat -> raises env t = None) ->
  main_finally env st =
  (Ok tt,
   set_port (Some {| portstr := d0; is_open := false |})
     (pushes (teardown_calls d0 b1 b2) st)).
Proof.
  intros Hp Hb1 Hb2 Hq.
  unfold main_finally, try_except_pass, bind, sleep, call_, call, get_state,
    modify.
  cbn [clock push port bus1 bus2].
  rewrite Hq by lia. cbn [clock push port bus1 bus2].
  rewrite Hp, Hb1, Hb2. cbn [is_open portstr clock push].
  quiet_run Hq. reflexivity.
Qed.

(** [try] / [except] / [finally] when the body is interrupted, the handler
    prints, and the [finally] block returns. *)
Lemma try_interrupted body on_interrupt on_exception fin env st st1 st2 st3 :
  body env st = (Raise KeyboardInterrupt, st1) ->
  on_interrupt env st1 = (Ok tt, st2) ->
  fin env st2 = (Ok tt, st3) ->
  try_except_finally body on_interrupt on_exception fin env st = (Ok tt, st3).
Proof.
  intros Hb Hh Hf. unfold try_except_finally. now rewrite Hb, Hh, Hf.
Qed.

Lemma try_running body on_interrupt on_exception fin env st st1 :
  body env st = (Running, st1) ->
  try_except_finally body on_interrupt on_exception fin env st = (Running, st1).
Proof. intros Hb. unfold try_except_finally. now rewrite Hb. Qed.

(** ** From the command line to the loop *)

Lemma check_paths_resolved mode d0 d1 d2 env st :
  nonempty d0 = true -> nonempty d1 = true -> nonempty d2 = true ->
  check_paths mode (Some d0) (Some d1) (Some d2) env st = (Ok tt, st).
Proof.
  intros H0 H1 H2. unfold check_paths, bind. cbn [truthy].
  rewrite H0, H1, H2. cbn [negb andb ret]. now rewrite !andb_false_r.
Qed.

(** *** A session on a card whose three paths are found *)

Section Session.

Variable env : Env.
Variables d0 d1 d2 : string.
Variable st0 : State.

Hypothesis paths_found :
  resolve_paths env initial = (Ok (Some d0, Some d1, Some d2), st0).
Hypothesis d0_path : nonempty d0 = true.
Hypothesis d1_path : nonempty d1 = true.
Hypothesis d2_path : nonempty d2 = true.
Hypothesis echo_utf8 : forall t, utf8_valid (read_reply env t) = true.

Lemma trace_loop_start mode bit_rate :
  trace (loop_start env st0 d0 d1 d2 mode bit_rate) =
  (trace st0 ++ main_configure_calls env (clock st0) mode bit_rate d0 d1 d2)%list.
Proof.
  unfold trace, loop_start. cbn [events].
  now rewrite rev_app_distr, rev_involutive.
Qed.

Lemma main_reaches_loop fuel mode bit_rate :
  existsb (Z.eqb bit_rate) valid_bit_rates = true ->
  (forall t, (clock st0 <= t < 24 + clock st0)%nat -> raises env t = None) ->
  main fuel mode bit_rate env initial =
  try_except_finally
    (main_loop fuel mode 0 true)
    (print (Text (NL ++ "Operation terminated by user.")))
    (fun e => print (ErrorLine e))
    main_finally env (loop_start env st0 d0 d1 d2 mode bit_rate).
Proof.
  intros Hvalid Hq.
  unfold main, bind at 1, check_bit_rate. rewrite Hvalid. cbn [negb ret].
  unfold bind at 1. rewrite paths_found.
  unfold bind at 1. rewrite check_paths_resolved by assumption.
  unfold bind at 1, modify.
  unfold try_except_finally, bind at 1.
  rewrite (main_configure_quiet env _ mode bit_rate d0 d1 d2 d1_path d2_path);
    [reflexivity|exact Hq|apply echo_utf8|apply echo_utf8].
Qed.

(** C6: in mode send at 1000 kbit/s, with the three paths found and no
    call raising before a time [k] in the loop: the management port is
    sent [set can-mode VCAN1 slcan] and [set can-baudrate VCAN1 1000]
    before the same two lines for VCAN2, then the channel-1 handle is
    opened at 1000 * 1000 bit/s; every turn of the loop is a time stamp, a
    send on channel 1, a report and a sleep of 100 ms, so frames are
    100 ms apart; the loop is still running after every turn that ends
    by time [k]; and when call [k] is interrupted by the user, the
    session ends through the handler and the [finally] block. *)
Theorem send_session (k : nat) :
  (24 + clock st0 <= k)%nat ->
  (forall t, (t < k)%nat -> raises env t = None) ->
  let t0 := clock st0 in
  let b1 := bus1_at t0 1000 d1 in
  let b2 := bus2_at t0 1000 d2 in
  let startup := main_configure_calls env t0 "send" 1000 d0 d1 d2 in
  let frames n := send_calls env b1 n (24 + t0) 0 true in
  startup =
  [ EvSerialOpen d0;
    EvWrite d0 CRLF;
    EvSleep 100;
    EvInWaiting d0;
    EvRead d0 (in_waiting env (3 + t0)%nat);
    EvPrint (Text "Configuring CAN ports...");
    EvWrite d0 ("set can-mode VCAN1 slcan" ++ CRLF);
    EvSleep 100;
    EvWrite d0 ("set can-baudrate VCAN1 1000" ++ CRLF);
    EvSleep 100;
    EvInWaiting d0;
    EvRead d0 (in_waiting env (10 + t0)%nat);
    EvPrint (Text (read_reply env (11 + t0)%nat));
    EvWrite d0 ("set can-mode VCAN2 slcan" ++ CRLF);
    EvSleep 100;
    EvWrite d0 ("set can-baudrate VCAN2 1000" ++ CRLF);
    EvSleep 100;
    EvInWaiting d0;
    EvRead d0 (in_waiting env (17 + t0)%nat);
    EvPrint (Text (read_reply env (18 + t0)%nat));
    EvPrint (Text "CAN ports configured.");
    EvBusOpen "slcan" d1 1000000;
    EvBusOpen "slcan" d2 1000000;
    EvPrint (Text ("Starting CAN bus mode: send..." ++ NL
                   ++ "Ctrl+C to exit")) ] /\
  bus_bitrate b1 = 1000 * 1000 /\
  (forall n t number is_increment,
     send_calls env b1 (S n) t number is_increment =
     let '(number', is_increment', payload) :=
       inc_dec_data_string number is_increment default_low default_high in
     ([ EvNow;
        EvBusSend b1 (make_message (now_reply env t) payload) 200;
        EvPrint (SentLine (make_message (now_reply env t) payload));
        EvSleep 100 ]
      ++ send_calls env b1 n (4 + t) number' is_increment')%list) /\
  (forall n, (4 * n <= k - (24 + t0))%nat ->
     exists st,
       main n "send" 1000 env initial = (Running, st) /\
       trace st = (trace st0 ++ startup ++ frames n)%list) /\
  (raises env k = Some Interrupt ->
   (forall t, (k < t <= 7 + k)%nat -> raises env t = None) ->
   forall n, (k - (24 + t0) < 4 * n)%nat ->
     exists st,
       main n "send" 1000 env initial = (Ok tt, st) /\
       trace st =
       (trace st0 ++ startup ++ firstn (S (k - (24 + t0))) (frames n)
        ++ [EvPrint (Text (NL ++ "Operation terminated by user.")%string)]
        ++ teardown_calls d0 b1 b2)%list).
Proof.
  intros Hle Hq t0 b1 b2 startup frames.
  assert (Hmain : forall n,
    main n "send" 1000 env initial =
    try_except_finally (main_loop n "send" 0 true)
      (print (Text (NL ++ "Operation terminated by user.")))
      (fun e => print (ErrorLine e)) main_finally env
      (loop_start env st0 d0 d1 d2 "send" 1000)).
  { intros n. apply main_reaches_loop; [reflexivity|].
    intros t Ht. apply Hq. lia. }
  set (st1 := loop_start env st0 d0 d1 d2 "send" 1000) in *.
  assert (Hc1 : clock st1 = (24 + t0)%nat) by reflexivity.
  assert (Hbus : bus1 st1 = Some b1) by reflexivity.
  pose proof (trace_loop_start "send" 1000) as Htr1. fold st1 in Htr1.
  split; [|split; [|split; [|split]]].
  - reflexivity.
  - reflexivity.
  - intros n t number is_increment. reflexivity.
  - intros n Hn. eexists. rewrite Hmain. split.
    + apply try_running. rewrite (send_loop env b1) by exact Hbus.
      unfold loop_outcome. rewrite replay_quiet; [reflexivity|].
      intros t Ht. rewrite length_send_calls in Ht. apply Hq. lia.
    + rewrite trace_pushes, Htr1, <- app_assoc. reflexivity.
  - intros Hk Hafter n Hn. rewrite Hmain.
    set (j := (k - (24 + t0))%nat) in *.
    set (st2 := pushes (firstn (S j) (frames n)) st1).
    assert (Hlen : length (firstn (S j) (frames n)) = S j).
    { rewrite length_firstn. unfold frames. rewrite length_send_calls. lia. }
    assert (Hc2 : clock st2 = S k).
    { unfold st2. rewrite clock_pushes, Hlen, Hc1. lia. }
    destruct (locals_pushes (firstn (S j) (frames n)) st1) as [Hp [Hb1 Hb2]].
    fold st2 in Hp, Hb1, Hb2.
    set (st3 := push (EvPrint (Text (NL ++ "Operation terminated by user.")))
                     st2).
    eexists. split.
    + eapply try_interrupted with (st1 := st2) (st2 := st3).
      * rewrite (send_loop env b1) by exact Hbus.
        unfold loop_outcome.
        rewrite (replay_fault env _ st1 j Interrupt); [reflexivity| | |].
        -- unfold frames in *. rewrite length_send_calls. exact Hn.
        -- intros t Ht. apply Hq. lia.
        -- rewrite Hc1. replace (j + (24 + t0))%nat with k by lia. exact Hk.
      * unfold print, call_, call. rewrite Hc2, Hafter by lia. reflexivity.
      * apply (main_finally_quiet env st3 d0 b1 b2);
          [exact Hp|exact Hb1|exact Hb2|].
        intros t Ht. apply Hafter. cbn [clock st3 push] in Ht. lia.
    + unfold trace at 1. cbn [events set_port].
      fold (trace (pushes (teardown_calls d0 b1 b2) st3)).
      rewrite trace_pushes. unfold st3, trace at 1. cbn [events push rev].
      fold (trace st2). unfold st2. rewrite trace_pushes, Htr1.
      rewrite <- !app_assoc. reflexivity.
Qed.

(** C7: in mode loopback, with the three paths found and no call raising,
    every turn of the loop takes the next payload of the generator,
    builds a frame with the extended id 0x123 and that payload, sends it
    on channel 1 with a timeout of 200 ms and then receives on channel 2,
    reports and sleeps 100 ms: the receive on channel 2 follows the send
    on channel 1 within the turn.  The generator starts from number 0,
    direction up, so the payload of the first turn is [hello_1]. *)
Theorem loopback_session (bit_rate : Z) :
  In bit_rate valid_bit_rates ->
  (forall t, raises env t = None) ->
  let t0 := clock st0 in
  let b1 := bus1_at t0 bit_rate d1 in
  let b2 := bus2_at t0 bit_rate d2 in
  let turns := loopback_calls env b1 b2 in
  (forall n t number is_increment,
     turns (S n) t number is_increment =
     let '(number', is_increment', payload) :=
       inc_dec_data_string number is_increment default_low default_high in
     let message :=
       {| timestamp := now_reply env t; arbitration_id := 0x123;
          is_extended_id := true; data := encode payload |} in
     ([ EvNow;
        EvPrint (SentLine message);
        EvBusSend b1 message 200;
        EvBusRecv b2;
        EvPrint (ReceivedLine (recv_reply env (3 + t)%nat));
        EvSleep 100 ]
      ++ turns n (6 + t)%nat number' is_increment')%list) /\
  (forall n t,
     firstn 4 (turns (S n) t 0 true) =
     let message :=
       {| timestamp := now_reply env t; arbitration_id := 0x123;
          is_extended_id := true; data := encode "hello_1" |} in
     [ EvNow; EvPrint (SentLine message); EvBusSend b1 message 200;
       EvBusRecv b2 ]) /\
  (forall n,
     exists st,
       main n "loopback" bit_rate env initial = (Running, st) /\
       trace st =
       (trace st0
        ++ main_configure_calls env t0 "loopback" bit_rate d0 d1 d2
        ++ turns n (24 + t0)%nat 0 true)%list).
Proof.
  intros Hvalid Hq t0 b1 b2 turns.
  split; [|split].
  - intros n t number is_increment. reflexivity.
  - intros n t. reflexivity.
  - intros n.
    exists (pushes (turns n (24 + t0)%nat 0 true)
              (loop_start env st0 d0 d1 d2 "loopback" bit_rate)).
    split.
    + rewrite main_reaches_loop; [|now apply existsb_valid|auto].
      apply try_running.
      rewrite (loopback_loop env b1 b2) by reflexivity.
      unfold loop_outcome. rewrite replay_quiet; [reflexivity|].
      intros t _. apply Hq.
    + rewrite trace_pushes, trace_loop_start, <- app_assoc. reflexivity.
Qed.

End Session.

Lemma send_session_witness :
  exists st,
    main 2 "send" 1000 (bench card_ports (fault_at 38 Interrupt) "") initial
    = (Ok tt, st).
Proof.
  destruct (send_session (bench card_ports (fault_at 38 Interrupt) "")
              "/dev/ttyACM0" "/dev/ttyACM1" "/dev/ttyACM2"
              (snd (resolve_paths (bench card_ports (fault_at 38 Interrupt) "")
                      initial)))
    with (k := 38%nat) as [_ [_ [_ [_ H]]]].
  - vm_compute. reflexivity.
  - reflexivity.
  - reflexivity.
  - reflexivity.
  - intros t. reflexivity.
  - vm_compute. lia.
  - intros t Ht. cbn. unfold fault_at.
    destruct (Nat.eqb_spec t 38); [lia|reflexivity].
  - destruct (H eq_refl) with (n := 2%nat) as [st [Hmain _]].
    + intros t Ht. cbn. unfold fault_at.
      destruct (Nat.eqb_spec t 38); [lia|reflexivity].
    + vm_compute. lia.
    + exists st. exact Hmain.
Defined.

Lemma loopback_session_witness :
  exists st,
    main 3 "loopback" 500 (bench card_ports no_fault "") initial
    = (Running, st).
Proof.
  destruct (loopback_session (bench card_ports no_fault "")
              "/dev/ttyACM0" "/dev/ttyACM1" "/dev/ttyACM2"
              (snd (resolve_paths (bench card_ports no_fault "") initial)))
    with (bit_rate := 500) as [_ [_ H]].
  - vm_compute. reflexivity.
  - reflexivity.
  - reflexivity.
  - reflexivity.
  - intros t. reflexivity.
  - cbn. lia.
  - intros t. reflexivity.
  - destruct (H 3%nat) as [st [Hmain _]]. exists st. exact Hmain.
Defined.

(** ** Teardown *)

(** X19: what the [finally] block does when the port is open and both handles
    exist, the settle delay is not interrupted and the port step raises
    nothing but [Exception]s: these are swallowed and the shutdown of the
    channel-1 handle is attempted; the shutdown of the channel-2 handle is
    attempted only if that of channel 1 returned. *)
Lemma main_finally_run env st d0 b1 b2 :
  port st = Some {| portstr := d0; is_open := true |} ->
  bus1 st = Some b1 -> bus2 st = Some b2 ->
  raises env (clock st) = None ->
  (forall t, raises env t <> Some Interrupt) ->
  let cleanup := port_step_calls env (S (clock st)) d0 in
  let t1 := (length cleanup + S (clock st))%nat in
  exists st',
    main_finally env st =
    (match raises env t1 with
     | Some f => Raise (exn_of_fault f)
     | None =>
       match raises env (S t1) with
       | Some f => Raise (exn_of_fault f)
       | None => Ok tt
       end
     end, st') /\
    trace st' =
    (trace st ++ [EvSleep 1000] ++ cleanup ++ [EvBusShutdown b1]
     ++ match raises env t1 with
        | Some _ => []
        | None => [EvBusShutdown b2]
        end)%list.
Proof.
  intros Hp Hb1 Hb2 Hs Hni. cbv zeta.
  assert (Hexc : forall f, (exists t, raises env t = Some f) ->
                           is_Exception (exn_of_fault f) = true).
  { intros [|name msg] [t Ht]; [|reflexivity]. now apply Hni in Ht. }
  unfold main_finally, try_except_pass, port_step_calls, bind, sleep, call_,
    call, get_state, modify.
  cbn [clock push port bus1 bus2]. rewrite Hs.
  cbn [clock push port bus1 bus2]. rewrite Hp, Hb1, Hb2.
  cbn [is_open portstr clock push].
  destruct (raises env (S (clock st))) as [f|] eqn:E1.
  { rewrite (Hexc f) by eauto. cbn [length Nat.add clock push].
    destruct (raises env (S (S (clock st)))) as [g|]; cbn [clock push set_port].
    - eexists. split; [reflexivity|]. unfold trace. cbn [events push rev set_port].
      rewrite <- !app_assoc. reflexivity.
    - destruct (raises env (S (S (S (clock st))))) as [g|];
        (eexists; split; [reflexivity|]); unfold trace; cbn [events push rev set_port];
        rewrite <- !app_assoc; reflexivity. }
  cbn [clock push set_port].
  destruct (raises env (S (S (clock st)))) as [f|] eqn:E2.
  { rewrite (Hexc f) by eauto. cbn [length Nat.add clock push].
    destruct (raises env (S (S (S (clock st))))) as [g|]; cbn [clock push set_port].
    - eexists. split; [reflexivity|]. unfold trace. cbn [events push rev set_port].
      rewrite <- !app_assoc. reflexivity.
    - destruct (raises env (S (S (S (S (clock st)))))) as [g|];
        (eexists; split; [reflexivity|]); unfold trace; cbn [events push rev set_port];
        rewrite <- !app_assoc; reflexivity. }
  cbn [clock push set_port].
  destruct (raises env (S (S (S (clock st))))) as [f|] eqn:E3.
  { rewrite (Hexc f) by eauto. cbn [length Nat.add clock push].
    destruct (raises env (S (S (S (S (clock st)))))) as [g|]; cbn [clock push set_port].
    - eexists. split; [reflexivity|]. unfold trace. cbn [events push rev set_port].
      rewrite <- !app_assoc. reflexivity.
    - destruct (raises env (S (S (S (S (S (clock st))))))) as [g|];
        (eexists; split; [reflexivity|]); unfold trace; cbn [events push rev set_port];
        rewrite <- !app_assoc; reflexivity. }
  cbn [length Nat.add clock push set_port].
  destruct (raises env (S (S (S (S (clock st)))))) as [g|]; cbn [clock push set_port].
  - eexists. split; [reflexivity|]. unfold trace. cbn [events push rev set_port].
    rewrite <- !app_assoc. reflexivity.
  - destruct (raises env (S (S (S (S (S (clock st))))))) as [g|];
      (eexists; split; [reflexivity|]); unfold trace; cbn [events push rev set_port];
      rewrite <- !app_assoc; reflexivity.
Qed.

(** C1, where the code departs from it: in a loopback session that the
    user interrupts, with the port open and both handles made, a shutdown
    of the channel-1 handle that raises ends the [finally] block: the
    settle delay, the port step and the channel-1 shutdown are attempted in
    this order, the shutdown of the channel-2 handle is never attempted,
    and the exception leaves [main]. *)
Theorem teardown_skips_bus2_when_bus1_shutdown_fails :
  let env := bench card_ports unplugged_faults "" in
  let b1 := bus1_at 9 1000 "/dev/ttyACM1" in
  let b2 := bus2_at 9 1000 "/dev/ttyACM2" in
  exists st,
    main 1 "loopback" 1000 env initial
    = (Raise (LibraryError "SerialException" "write failed"), st) /\
    bus1 st = Some b1 /\ bus2 st = Some b2 /\
    skipn 38 (trace st) =
    [ EvSleep 1000; EvResetInput "/dev/ttyACM0";
      EvResetOutput "/dev/ttyACM0"; EvClose "/dev/ttyACM0";
      EvBusShutdown b1 ] /\
    ~ In (EvBusShutdown b2) (trace st).
Proof.
  cbv zeta. eexists. split; [vm_compute; reflexivity|].
  split; [reflexivity|]. split; [reflexivity|]. split; [reflexivity|].
  intros H. cbv in H.
  repeat (destruct H as [H|H]; [discriminate H|]). exact H.
Qed.

(** * More properties of the code *)

(** ** The payload generator over many calls *)

Lemma generator_run_app n m number is_increment low high :
  generator_run (n + m) number is_increment low high =
  let '(number', is_increment') :=
    generator_run n number is_increment low high in
  generator_run m number' is_increment' low high.
Proof.
  revert number is_increment.
  induction n as [|n IH]; intros number is_increment; cbn [generator_run Nat.add].
  - reflexivity.
  - destruct (inc_dec_data_string number is_increment low high)
      as [[number' is_increment'] payload].
    apply IH.
Qed.

Lemma generator_climbs k :
  forall number is_increment low high,
    low <= number -> number + Z.of_nat (S k) <= high ->
    is_increment = true \/ number = low ->
    generator_run (S k) number is_increment low high
    = (number + Z.of_nat (S k), true).
Proof.
  induction k as [|k IH]; intros number is_increment low high Hlow Hhigh Hdir.
  - cbn [generator_run inc_dec_data_string].
    destruct (Z.eqb_spec number low) as [->|Hne].
    + f_equal; lia.
    + destruct (Z.eqb_spec number high) as [->|_]; [lia|].
      destruct Hdir as [->|Hd]; [|contradiction]. f_equal; lia.
  - change (generator_run (S (S k)) number is_increment low high)
      with (let '(number', is_increment', _) :=
              inc_dec_data_string number is_increment low high in
            generator_run (S k) number' is_increment' low high).
    unfold inc_dec_data_string.
    assert (Hstep : (if (if number =? low then true
                         else if number =? high then false else is_increment)
                     then number + 1 else number - 1) = number + 1
                    /\ (if number =? low then true
                        else if number =? high then false else is_increment)
                       = true).
    { destruct (Z.eqb_spec number low) as [->|Hne]; [auto|].
      destruct (Z.eqb_spec number high) as [->|_]; [lia|].
      destruct Hdir as [->|Hd]; [auto|contradiction]. }
    destruct Hstep as [Hn Hd]. rewrite Hd. cbn iota.
    rewrite (IH (number + 1) true low high) by (auto; lia).
    f_equal; lia.
Qed.

Lemma generator_descends k :
  forall number is_increment low high,
    number <= high -> low <= number - Z.of_nat (S k) ->
    is_increment = false \/ number = high ->
    generator_run (S k) number is_increment low high
    = (number - Z.of_nat (S k), false).
Proof.
  induction k as [|k IH]; intros number is_increment low high Hhigh Hlow Hdir.
  - cbn [generator_run inc_dec_data_string].
    destruct (Z.eqb_spec number low) as [->|Hne]; [lia|].
    destruct (Z.eqb_spec number high) as [->|Hne'].
    + f_equal; lia.
    + destruct Hdir as [->|Hd]; [|contradiction]. f_equal; lia.
  - change (generator_run (S (S k)) number is_increment low high)
      with (let '(number', is_increment', _) :=
              inc_dec_data_string number is_increment low high in
            generator_run (S k) number' is_increment' low high).
    unfold inc_dec_data_string.
    assert (Hd : (if number =? low then true
                  else if number =? high then false else is_increment)
                 = false).
    { destruct (Z.eqb_spec number low) as [->|Hne]; [lia|].
      destruct (Z.eqb_spec number high) as [->|Hne']; [reflexivity|].
      destruct Hdir as [->|Hd]; [reflexivity|contradiction]. }
    rewrite Hd. cbn iota.
    rewrite (IH (number - 1) false low high) by (auto; lia).
    f_equal; lia.
Qed.

Lemma generator_run_from_low k is_increment low high :
  fst (generator_run k low is_increment low high)
  = fst (generator_run k low true low high).
Proof.
  destruct k as [|k]; [reflexivity|].
  cbn [generator_run inc_dec_data_string]. now rewrite Z.eqb_refl.
Qed.

(** X1: the counter oscillates.  With [low < high], a generator that starts
    at [low] reaches [high] after [high - low] calls, is back at [low]
    after [2 * (high - low)] calls, and from there on repeats: the counter
    after [2 * (high - low) + k] calls is the counter after [k] calls,
    whatever the direction it was started with. *)
Theorem generator_period (is_increment : bool) (low high : Z) :
  low < high ->
  let half := Z.to_nat (high - low) in
  generator_run half low is_increment low high = (high, true) /\
  generator_run (half + half) low is_increment low high = (low, false) /\
  forall k,
    fst (generator_run (half + half + k) low is_increment low high)
    = fst (generator_run k low is_increment low high).
Proof.
  intros Hlt half.
  assert (Hhalf : exists h, half = S h /\ Z.of_nat (S h) = high - low).
  { exists (Nat.pred half). unfold half. split; lia. }
  destruct Hhalf as [h [Hh Hz]].
  assert (Hup : generator_run half low is_increment low high = (high, true)).
  { rewrite Hh, generator_climbs by (auto; lia). f_equal; lia. }
  assert (Hdown : generator_run (half + half) low is_increment low high
                  = (low, false)).
  { rewrite generator_run_app, Hup, Hh.
    rewrite generator_descends by (auto; lia). f_equal; lia. }
  split; [exact Hup|]. split; [exact Hdown|].
  intros k. rewrite generator_run_app, Hdown.
  rewrite generator_run_from_low.
  symmetry. apply generator_run_from_low.
Qed.

Lemma generator_period_witness :
  generator_run 9 0 true 0 9 = (9, true) /\
  generator_run 18 0 true 0 9 = (0, false) /\
  forall k,
    fst (generator_run (18 + k) 0 true 0 9) = fst (generator_run k 0 true 0 9).
Proof.
  apply (generator_period true 0 9). lia.
Defined.

(** X2: the generator does not clamp.  Started above both bounds with the
    direction up, the counter never comes back: after [n] calls it is
    [number + n].  The bounds are only met from inside. *)
Theorem generator_escapes_above (n : nat) (number low high : Z) :
  low < number -> high < number ->
  generator_run n number true low high = (number + Z.of_nat n, true).
Proof.
  revert number. induction n as [|n IH]; intros number Hlow Hhigh.
  - cbn. f_equal; lia.
  - cbn [generator_run inc_dec_data_string].
    destruct (Z.eqb_spec number low) as [->|_]; [lia|].
    destruct (Z.eqb_spec number high) as [->|_]; [lia|].
    rewrite IH by lia. f_equal; lia.
Qed.

Lemma generator_escapes_above_witness :
  generator_run 5 10 true 0 9 = (15, true).
Proof.
  apply (generator_escapes_above 5 10 0 9); lia.
Defined.

(** X3: with bounds that leave no room ([high <= low]) a generator started
    at [low] leaves them at the first call and never returns: after
    [n + 1] calls the counter is [low + n + 1]. *)
Theorem generator_degenerate_bounds
    (n : nat) (is_increment : bool) (low high : Z) :
  high <= low ->
  generator_run (S n) low is_increment low high
  = (low + Z.of_nat (S n), true).
Proof.
  intros Hle. cbn [generator_run inc_dec_data_string].
  rewrite Z.eqb_refl.
  rewrite generator_escapes_above by lia. f_equal; lia.
Qed.

Lemma generator_degenerate_bounds_witness :
  generator_run 3 4 false 4 4 = (7, true).
Proof.
  apply (generator_degenerate_bounds 2 false 4 4). lia.
Defined.

Lemma to_int_not_nil (z : Z) :
  Z.to_int z <> Decimal.Pos Decimal.Nil /\ Z.to_int z <> Decimal.Neg Decimal.Nil.
Proof.
  split; intros H;
    assert (Hz : z = 0) by (rewrite <- (DecimalZ.of_to z), H; reflexivity);
    subst z; discriminate H.
Qed.

Lemma str_of_int_inj (a b : Z) : str_of_int a = str_of_int b -> a = b.
Proof.
  unfold str_of_int. intros H.
  apply (f_equal NilZero.int_of_string) in H.
  destruct (to_int_not_nil a) as [Ha1 Ha2], (to_int_not_nil b) as [Hb1 Hb2].
  rewrite !NilZero.isi in H by assumption.
  injection H as H. now apply DecimalZ.to_int_inj.
Qed.

Lemma append_inj_l (p s t : string) : p ++ s = p ++ t -> s = t.
Proof.
  induction p as [|c p IH]; cbn; intros H; [exact H|].
  injection H as H. auto.
Qed.

(** X4: the payload tells the counter.  Two calls of the generator return
    the same payload only if they return the same counter, and the payload
    of a call differs from the payload of the call that follows it. *)
Theorem payload_tells_counter
    (number1 number2 : Z) (dir1 dir2 : bool) (low1 high1 low2 high2 : Z) :
  let '(n1, d1, p1) := inc_dec_data_string number1 dir1 low1 high1 in
  let '(n2, _, p2) := inc_dec_data_string number2 dir2 low2 high2 in
  let '(_, _, p1') := inc_dec_data_string n1 d1 low1 high1 in
  (p1 = p2 -> n1 = n2) /\ p1 <> p1'.
Proof.
  unfold inc_dec_data_string. split.
  - intros H. apply append_inj_l in H. now apply str_of_int_inj.
  - intros H. apply append_inj_l, str_of_int_inj in H.
    repeat match type of H with
           | context [if ?c then _ else _] => destruct c
           end; lia.
Qed.

(** ** get_device_port on any host *)

Lemma scan_ports_sound dev_id loc ports env st r st' :
  scan_ports dev_id loc ports env st = (r, st') ->
  match r with
  | Ok (Some d) =>
    exists marker p, loc = Some marker /\ In p ports /\
                     port_matches dev_id marker p = true /\ device p = d
  | Ok None =>
    forall marker, loc = Some marker -> nonempty marker = true ->
                   forall p, In p ports -> port_matches dev_id marker p = false
  | Raise _ => True
  | Running => False
  end.
Proof.
  revert st. induction ports as [|p rest IH]; intros st; cbn [scan_ports].
  - intros H. inversion H; subst. intros marker _ _ q [].
  - assert (Hskip : port_matches dev_id
                      match loc with Some m => m | None => "" end p = false ->
                    scan_ports dev_id loc rest env st = (r, st') ->
                    match r with
                    | Ok (Some d) =>
                      exists marker q, loc = Some marker /\ In q (p :: rest) /\
                        port_matches dev_id marker q = true /\ device q = d
                    | Ok None =>
                      forall marker, loc = Some marker ->
                        nonempty marker = true ->
                        forall q, In q (p :: rest) ->
                                  port_matches dev_id marker q = false
                    | Raise _ => True
                    | Running => False
                    end).
    { intros Hp H. apply IH in H. destruct r as [[d|]|e|]; auto.
      - destruct H as [marker [q [Hl [Hq [Hm Hd]]]]].
        exists marker, q. repeat split; auto. now right.
      - intros marker Hl Hne q [<-|Hq]; [now subst loc|eauto]. }
    unfold port_matches in Hskip.
    destruct (str_in dev_id (hwid p)) eqn:Hid; [|now apply Hskip].
    destruct loc as [marker|]; cbn [truthy].
    2:{ intros H. apply IH in H. destruct r as [[d|]|e|]; auto.
        - destruct H as [m [q [Hl _]]]. discriminate.
        - intros m Hl. discriminate. }
    destruct (nonempty marker) eqn:Hne.
    2:{ intros H. apply IH in H. destruct r as [[d|]|e|]; auto.
        - destruct H as [m [q [Hl [Hq [Hm Hd]]]]].
          exists m, q. repeat split; auto. now right.
        - intros m Hl Hm. injection Hl as <-. congruence. }
    destruct (location p) as [port_location|] eqn:Hloc.
    2:{ intros H. inversion H; subst. exact I. }
    destruct (str_in marker port_location) eqn:Hin; [|now apply Hskip].
    unfold bind, print, call_, call, ret.
    destruct (raises env (clock st)); [intros H; inversion H; subst; exact I|].
    cbn [clock push].
    destruct (raises env (S (clock st))); intros H; inversion H; subst;
      [exact I|].
    exists marker, p. repeat split; [now left|].
    unfold port_matches. now rewrite Hid, Hloc.
Qed.

(** X5: on any host and whatever raises, [get_device_port] gives no wrong
    answer: a path it returns is the device of an attached port that passes
    both filters, and with a non-empty location marker it returns [None]
    only when no attached port passes both. *)
Theorem get_device_port_sound
    (env : Env) (st : State) (dev_id : string) (loc : option string)
    (r : result (option string)) (st' : State) :
  get_device_port dev_id loc env st = (r, st') ->
  match r with
  | Ok (Some d) =>
    exists marker p, loc = Some marker /\ In p (comports env) /\
                     port_matches dev_id marker p = true /\ device p = d
  | Ok None =>
    forall marker, loc = Some marker -> nonempty marker = true ->
                   forall p, In p (comports env) ->
                             port_matches dev_id marker p = false
  | Raise _ => True
  | Running => False
  end.
Proof.
  unfold get_device_port, bind, call, ask.
  destruct (raises env (clock st)); [intros H; inversion H; subst; exact I|].
  intros H. apply scan_ports_sound in H.
  destruct r as [[d|]|e|]; auto.
  - destruct H as [marker [p [Hl [Hp [Hm Hd]]]]].
    exists marker, p. repeat split; auto.
    eapply Permutation_in; [apply sorted_permutation|exact Hp].
  - intros marker Hl Hne p Hp. apply (H marker Hl Hne).
    eapply Permutation_in; [apply Permutation_sym, sorted_permutation|exact Hp].
Qed.

Lemma get_device_port_sound_witness :
  exists marker p,
    Some ".2" = Some marker /\ In p (comports (bench card_ports no_fault "")) /\
    port_matches MCU_VID_PID marker p = true /\ device p = "/dev/ttyACM1".
Proof.
  apply (get_device_port_sound (bench card_ports no_fault "") initial
           MCU_VID_PID (Some ".2") (Ok (Some "/dev/ttyACM1"))
           (snd (get_device_port MCU_VID_PID (Some ".2")
                   (bench card_ports no_fault "") initial))).
  reflexivity.
Defined.

Lemma insert_port_in lt x l p :
  In p (insert_port lt x l) <-> p = x \/ In p l.
Proof.
  induction l as [|y l IH]; cbn.
  - intuition.
  - destruct (lt y x); cbn; rewrite ?IH; intuition.
Qed.

Lemma insert_port_comm lt x y l :
  strict_total_on lt (x :: y :: l) ->
  insert_port lt x (insert_port lt y l) = insert_port lt y (insert_port lt x l).
Proof.
  intros [Htrans [Hasym Htotal]].
  assert (Hx : In x (x :: y :: l)) by now left.
  assert (Hy : In y (x :: y :: l)) by (right; now left).
  induction l as [|h t IH].
  - cbn. destruct (Htotal x y Hx Hy) as [H|[H|H]].
    + rewrite H, (Hasym x y Hx Hy H). reflexivity.
    + now subst.
    + rewrite H, (Hasym y x Hy Hx H). reflexivity.
  - assert (Hh : In h (x :: y :: h :: t)) by (right; right; now left).
    assert (IH' : insert_port lt x (insert_port lt y t)
                  = insert_port lt y (insert_port lt x t)).
    { apply IH.
      - intros a b c Ha Hb Hc. apply Htrans; cbn in *; intuition.
      - intros a b Ha Hb. apply Hasym; cbn in *; intuition.
      - intros a b Ha Hb. apply Htotal; cbn in *; intuition.
      - now left.
      - right. now left. }
    cbn [insert_port].
    destruct (lt h y) eqn:Hhy, (lt h x) eqn:Hhx; cbn [insert_port];
      rewrite ?Hhy, ?Hhx.
    + now rewrite IH'.
    + assert (Hxy : lt x y = true).
      { destruct (Htotal x h Hx Hh) as [H|[H|H]]; [|subst; exact Hhy|congruence].
        exact (Htrans x h y Hx Hh Hy H Hhy). }
      now rewrite Hxy.
    + assert (Hyx : lt y x = true).
      { destruct (Htotal y h Hy Hh) as [H|[H|H]]; [|subst; exact Hhx|congruence].
        exact (Htrans y h x Hy Hh Hx H Hhx). }
      now rewrite Hyx.
    + destruct (Htotal x y Hx Hy) as [H|[H|H]].
      * now rewrite H, (Hasym x y Hx Hy H).
      * now subst.
      * now rewrite H, (Hasym y x Hy Hx H).
Qed.

Lemma strict_total_on_incl lt l l' :
  (forall p, In p l' -> In p l) -> strict_total_on lt l -> strict_total_on lt l'.
Proof.
  intros Hincl [Htrans [Hasym Htotal]]. split; [|split].
  - intros a b c Ha Hb Hc. apply Htrans; auto.
  - intros a b Ha Hb. apply Hasym; auto.
  - intros a b Ha Hb. apply Htotal; auto.
Qed.

Lemma sorted_in lt l p : In p (sorted lt l) <-> In p l.
Proof.
  split; apply Permutation_in;
    [apply sorted_permutation|apply Permutation_sym, sorted_permutation].
Qed.

Lemma sorted_cons lt x l :
  sorted lt (x :: l) = insert_port lt x (sorted lt l).
Proof. reflexivity. Qed.

Lemma sorted_of_permutation lt l l' :
  Permutation l l' -> strict_total_on lt l -> sorted lt l = sorted lt l'.
Proof.
  intros Hperm. induction Hperm as [|x l l' Hperm IH|x y l|l l' l'' H1 IH1 H2 IH2];
    intros Hord.
  - reflexivity.
  - rewrite !sorted_cons, IH; [reflexivity|].
    eapply strict_total_on_incl; [|exact Hord]. intros p Hp. now right.
  - rewrite !sorted_cons. apply insert_port_comm.
    eapply strict_total_on_incl; [|exact Hord].
    intros p [<-|[<-|Hp]].
    + now left.
    + right. now left.
    + right. right. now apply sorted_in in Hp.
  - rewrite IH1 by exact Hord. apply IH2.
    eapply strict_total_on_incl; [|exact Hord].
    intros p Hp. eapply Permutation_in; [apply Permutation_sym, H1|exact Hp].
Qed.

Lemma scan_ports_with_comports dev_id loc ports listed env st :
  scan_ports dev_id loc ports (with_comports listed env) st
  = scan_ports dev_id loc ports env st.
Proof.
  induction ports as [|p rest IH]; cbn [scan_ports]; [reflexivity|].
  destruct (str_in dev_id (hwid p)); [|exact IH].
  destruct (truthy loc); [|exact IH].
  destruct loc as [marker|]; [|reflexivity].
  destruct (location p) as [port_location|]; [|reflexivity].
  destruct (str_in marker port_location); [reflexivity|exact IH].
Qed.

(** X6: the answer of [get_device_port] does not depend on the order in
    which the host lists its ports.  When the order of [sorted] is strict
    and total on the attached ports, listing them in any other order gives
    the same result, the same prints and the same exceptions. *)
Theorem get_device_port_order_independent
    (env : Env) (listed : list ListPortInfo) (st : State)
    (dev_id : string) (loc : option string) :
  Permutation (comports env) listed ->
  strict_total_on (port_lt env) (comports env) ->
  get_device_port dev_id loc (with_comports listed env) st
  = get_device_port dev_id loc env st.
Proof.
  intros Hperm Hord. unfold get_device_port, bind, call, ask.
  cbn [raises comports port_lt with_comports].
  destruct (raises env (clock st)); [reflexivity|].
  rewrite scan_ports_with_comports.
  now rewrite (sorted_of_permutation _ _ _ Hperm Hord).
Qed.

Lemma card_ports_ordered : strict_total_on by_device card_ports.
Proof.
  split; [|split].
  - intros a b c Ha Hb Hc.
    destruct Ha as [<-|[<-|[<-|[]]]], Hb as [<-|[<-|[<-|[]]]],
             Hc as [<-|[<-|[<-|[]]]];
      vm_compute; intros; congruence.
  - intros a b Ha Hb.
    destruct Ha as [<-|[<-|[<-|[]]]], Hb as [<-|[<-|[<-|[]]]];
      vm_compute; intros; congruence.
  - intros a b Ha Hb.
    destruct Ha as [<-|[<-|[<-|[]]]], Hb as [<-|[<-|[<-|[]]]];
      first [left; reflexivity|right; left; reflexivity
            |right; right; reflexivity].
Defined.

Lemma get_device_port_order_independent_witness :
  get_device_port MCU_VID_PID (Some ".2")
    (with_comports (rev card_ports) (bench card_ports no_fault "")) initial
  = get_device_port MCU_VID_PID (Some ".2")
      (bench card_ports no_fault "") initial.
Proof.
  apply (get_device_port_order_independent
           (bench card_ports no_fault "") (rev card_ports) initial
           MCU_VID_PID (Some ".2")).
  - apply Permutation_rev.
  - exact card_ports_ordered.
Defined.

Lemma get_device_port_first_match_witness :
  get_device_port MCU_VID_PID (Some ".2") (bench card_ports no_fault "") initial
  = (Ok (Some "/dev/ttyACM1"),
     pushes [ EvComports;
              EvPrint (PortLine (usb_port "/dev/ttyACM1" "1-2:1.2"));
              EvPrint (Text "***************") ] initial).
Proof.
  apply (get_device_port_first_match (bench card_ports no_fault "") initial
           MCU_VID_PID ".2").
  - reflexivity.
  - intros p Hp _. destruct Hp as [<-|[<-|[<-|[]]]]; discriminate.
  - intros t _. reflexivity.
Defined.

(** ** configure_can when a call raises *)

(** X8: [configure_can] stops at the first call that raises.  When the
    echo that waits on the port is valid UTF-8, it makes its seven calls in
    order up to the first one that raises and raises what that call
    raised: after a failed write of the mode line the bit-rate line is
    never written. *)
Theorem configure_can_stops_at_first_fault
    (env : Env) (st : State) (p : Serial) (interface mode baud : string) :
  utf8_valid (read_reply env (5 + clock st)%nat) = true ->
  configure_can p interface mode baud env st =
  calls_outcome env
    (configure_can_calls (portstr p) interface mode baud
       (in_waiting env (4 + clock st)%nat)
       (read_reply env (5 + clock st)%nat)) st.
Proof.
  intros Hu. cbn [Nat.add] in *.
  unfold configure_can, calls_outcome, configure_can_calls, bind, sleep, print,
    call_, call, decode, encode.
  cbn [replay clock push].
  destruct (raises env (clock st)); [reflexivity|]. cbn [clock push].
  destruct (raises env (S (clock st))); [reflexivity|]. cbn [clock push].
  destruct (raises env (S (S (clock st)))); [reflexivity|]. cbn [clock push].
  destruct (raises env (S (S (S (clock st))))); [reflexivity|].
  cbn [clock push].
  destruct (raises env (S (S (S (S (clock st)))))); [reflexivity|].
  cbn [clock push].
  destruct (raises env (S (S (S (S (S (clock st))))))); [reflexivity|].
  rewrite Hu. cbn [ret clock push].
  destruct (raises env (S (S (S (S (S (S (clock st)))))))); reflexivity.
Qed.

Lemma configure_can_stops_at_first_fault_witness :
  configure_can {| portstr := "/dev/ttyACM0"; is_open := true |}
    "VCAN1" "slcan" "1000"
    (bench card_ports (fault_at 0 (Failure "SerialException" "write failed")) "")
    initial
  = (Raise (LibraryError "SerialException" "write failed"),
     pushes [EvWrite "/dev/ttyACM0" ("set can-mode VCAN1 slcan" ++ CRLF)]
       initial).
Proof.
  apply (configure_can_stops_at_first_fault
           (bench card_ports
              (fault_at 0 (Failure "SerialException" "write failed")) "")
           initial {| portstr := "/dev/ttyACM0"; is_open := true |}
           "VCAN1" "slcan" "1000").
  reflexivity.
Defined.

(** ** What a session can do, whatever the environment does *)

Lemma emits_weaken {A} (Q Q' : list event -> Prop) (m : M A) :
  (forall l, Q l -> Q' l) -> emits Q m -> emits Q' m.
Proof.
  intros Himp Hm env st r st' H.
  destruct (Hm _ _ _ _ H) as [l [Ht Hq]]. eauto.
Qed.

Lemma emits_silent {A} (Q : list event -> Prop) (m : M A) :
  Q [] -> (forall env st, events (snd (m env st)) = events st) -> emits Q m.
Proof.
  intros Hq Hm env st r st' H. exists []. split; [|exact Hq].
  unfold trace. specialize (Hm env st). rewrite H in Hm. cbn in Hm.
  now rewrite Hm, app_nil_r.
Qed.

Lemma only_ret {A} P (a : A) : only P (ret a).
Proof. apply emits_silent; auto. Qed.

Lemma only_raise {A} P (e : exn) : only P (@raise A e).
Proof. apply emits_silent; auto. Qed.

Lemma only_sys_exit {A} P code : only P (@sys_exit A code).
Proof. apply only_raise. Qed.

Lemma only_get_state P : only P get_state.
Proof. apply emits_silent; auto. Qed.

Lemma only_ask {A} P (f : Env -> A) : only P (ask f).
Proof. apply emits_silent; auto. Qed.

Lemma only_modify P (f : State -> State) :
  (forall st, events (f st) = events st) -> only P (modify f).
Proof. intros Hf. apply emits_silent; auto. Qed.

Lemma only_running P : only P (fun _ st => (@Running unit, st)).
Proof. apply emits_silent; auto. Qed.

Lemma only_call {A} (P : event -> Prop) (ev : event) (reply : Env -> nat -> A) :
  P ev -> only P (call ev reply).
Proof.
  intros Hev env st r st' H. exists [ev]. split; [|auto].
  unfold call in H. destruct (raises env (clock st)); inversion H; subst;
    reflexivity.
Qed.

Lemma emits_bind {A B} (Q1 Q2 Q : list event -> Prop) (m : M A) (k : A -> M B) :
  emits Q1 m -> (forall a, emits Q2 (k a)) ->
  (forall l1, Q1 l1 -> Q l1) ->
  (forall l1 l2, Q1 l1 -> Q2 l2 -> Q (l1 ++ l2)%list) ->
  emits Q (bind m k).
Proof.
  intros Hm Hk Hstop Hseq env st r st' H. unfold bind in H.
  destruct (m env st) as [[a|e|] st1] eqn:E;
    destruct (Hm _ _ _ _ E) as [l1 [Ht1 Hq1]].
  - destruct (Hk a _ _ _ _ H) as [l2 [Ht2 Hq2]].
    exists (l1 ++ l2)%list. split; [|auto].
    now rewrite Ht2, Ht1, app_assoc.
  - inversion H; subst. eauto.
  - inversion H; subst. eauto.
Qed.

Lemma only_bind {A B} P (m : M A) (k : A -> M B) :
  only P m -> (forall a, only P (k a)) -> only P (bind m k).
Proof.
  intros Hm Hk. eapply emits_bind; eauto.
  intros l1 l2 H1 H2. apply Forall_app. auto.
Qed.

Lemma only_try_except_pass P (body : M unit) :
  only P body -> only P (try_except_pass body).
Proof.
  intros Hb env st r st' H. unfold try_except_pass in H.
  destruct (body env st) as [[u|e|] st1] eqn:E;
    destruct (Hb _ _ _ _ E) as [l [Ht Hq]].
  - inversion H; subst. eauto.
  - destruct (is_Exception e); inversion H; subst; eauto.
  - inversion H; subst. eauto.
Qed.

(** [try] / [except] / [finally]: the calls of the body and of a handler,
    then the calls of the [finally] block, or none when the body is still
    running. *)
Lemma emits_try_except_finally P Q body on_interrupt on_exception fin :
  only P body -> only P on_interrupt -> (forall e, only P (on_exception e)) ->
  emits Q fin ->
  emits (fun l => exists l1 l2, l = (l1 ++ l2)%list /\ Forall P l1 /\
                                (l2 = [] \/ Q l2))
        (try_except_finally body on_interrupt on_exception fin).
Proof.
  intros Hb Hi He Hf env st r st' H. unfold try_except_finally in H.
  destruct (body env st) as [r1 st1] eqn:E1.
  destruct (Hb _ _ _ _ E1) as [l1 [Ht1 Hq1]].
  assert (Hh : forall r2 st2,
    match r1 with
    | Raise KeyboardInterrupt => on_interrupt env st1
    | Raise e => if is_Exception e then on_exception e env st1
                 else (Raise e, st1)
    | _ => (r1, st1)
    end = (r2, st2) ->
    exists l, trace st2 = (trace st ++ l)%list /\ Forall P l).
  { intros r2 st2 E2. destruct r1 as [u|e|].
    - inversion E2; subst. eauto.
    - assert (Hcase :
        (exists l, trace st2 = (trace st1 ++ l)%list /\ Forall P l)).
      { destruct e; cbn [is_Exception] in E2;
          try (inversion E2; subst; exists []; split;
               [now rewrite app_nil_r|constructor]; fail);
          first [exact (Hi _ _ _ _ E2)|exact (He _ _ _ _ _ E2)]. }
      destruct Hcase as [l2 [Ht2 Hq2]]. exists (l1 ++ l2)%list.
      split; [now rewrite Ht2, Ht1, app_assoc|now apply Forall_app].
    - inversion E2; subst. eauto. }
  destruct (match r1 with
            | Raise KeyboardInterrupt => on_interrupt env st1
            | Raise e => if is_Exception e then on_exception e env st1
                         else (Raise e, st1)
            | _ => (r1, st1)
            end) as [r2 st2] eqn:E2.
  destruct (Hh _ _ eq_refl) as [l2 [Ht2 Hq2]].
  assert (Hfin : forall rf st3, fin env st2 = (rf, st3) ->
            exists l, trace st3 = (trace st ++ l)%list /\
              exists la lb, l = (la ++ lb)%list /\ Forall P la /\
                            (lb = [] \/ Q lb)).
  { intros rf st3 E3. destruct (Hf _ _ _ _ E3) as [l3 [Ht3 Hq3]].
    exists (l2 ++ l3)%list. split; [now rewrite Ht3, Ht2, app_assoc|].
    exists l2, l3. auto. }
  destruct r2 as [u|e|].
  - destruct (fin env st2) as [[u'|e'|] st3] eqn:E3;
      inversion H; subst; eauto.
  - destruct (fin env st2) as [[u'|e'|] st3] eqn:E3;
      inversion H; subst; eauto.
  - inversion H; subst. exists l2. split; [exact Ht2|].
    exists l2, []. rewrite app_nil_r. auto.
Qed.

Lemma only_try_except_finally P body on_interrupt on_exception fin :
  only P body -> only P on_interrupt -> (forall e, only P (on_exception e)) ->
  only P fin ->
  only P (try_except_finally body on_interrupt on_exception fin).
Proof.
  intros Hb Hi He Hf. eapply emits_weaken.
  2:{ apply (emits_try_except_finally P (Forall P)); eassumption. }
  intros l [l1 [l2 [-> [H1 [->|H2]]]]]; apply Forall_app; auto.
Qed.

Create HintDb session discriminated.
#[local] Hint Resolve only_ret only_raise only_sys_exit only_get_state only_ask
  only_running only_bind only_try_except_pass only_try_except_finally : session.

Lemma only_print P (p : printed) : P (EvPrint p) -> only P (print p).
Proof. apply only_call. Qed.

Lemma only_sleep P (ms : Z) : P (EvSleep ms) -> only P (sleep ms).
Proof. apply only_call. Qed.

Lemma only_call_ P (ev : event) : P ev -> only P (call_ ev).
Proof. apply only_call. Qed.

Lemma only_set_port P v : only P (modify (set_port v)).
Proof. now apply only_modify. Qed.

Lemma only_set_bus1 P v : only P (modify (set_bus1 v)).
Proof. now apply only_modify. Qed.

Lemma only_set_bus2 P v : only P (modify (set_bus2 v)).
Proof. now apply only_modify. Qed.

#[local] Hint Resolve only_set_port only_set_bus1 only_set_bus2 : session.

Section SessionEvents.

Variable mode : string.
Variable bit_rate : Z.

Local Notation "'P'" := (body_event mode bit_rate).

Lemma body_print p : only P (print p).
Proof. now apply only_print. Qed.

Lemma body_sleep_100 : only P (sleep 100).
Proof. now apply only_sleep. Qed.

Hint Resolve body_print body_sleep_100 : session.

Lemma body_scan_ports dev_id loc ports : only P (scan_ports dev_id loc ports).
Proof.
  induction ports as [|p rest IH]; cbn [scan_ports]; auto with session.
  destruct (str_in dev_id (hwid p)); [|exact IH].
  destruct (truthy loc); [|exact IH].
  destruct loc as [marker|]; auto with session.
  destruct (location p) as [port_location|]; auto with session.
  destruct (str_in marker port_location); auto 6 with session.
Qed.

Lemma body_get_device_port dev_id loc : only P (get_device_port dev_id loc).
Proof.
  unfold get_device_port.
  apply only_bind; [now apply only_call|intros all_ports].
  apply only_bind; [auto with session|intros lt]. apply body_scan_ports.
Qed.

Hint Resolve body_get_device_port : session.

Lemma body_resolve_paths : only P resolve_paths.
Proof. unfold resolve_paths. auto 8 with session. Qed.

Lemma body_check_bit_rate : only P (check_bit_rate bit_rate).
Proof. unfold check_bit_rate. destruct (negb _); auto with session. Qed.

Lemma body_check_paths m c1 c2 : only P (check_paths mode m c1 c2).
Proof.
  unfold check_paths. apply only_bind.
  - destruct (negb _); auto with session.
  - intros _. repeat (destruct (_ && _); auto with session).
Qed.

Lemma body_decode b : only P (decode b).
Proof. unfold decode. destruct (utf8_valid b); auto with session. Qed.

Lemma body_configure_can p interface :
  interface = "VCAN1" \/ interface = "VCAN2" ->
  only P (configure_can p interface "slcan" (str_of_int bit_rate)).
Proof.
  intros Hi. unfold configure_can.
  assert (Hmode : P (EvWrite (portstr p)
            (encode ("set can-mode " ++ interface ++ " " ++ "slcan" ++ CRLF)))).
  { destruct Hi as [->| ->]; cbn; auto 6. }
  assert (Hbaud : P (EvWrite (portstr p)
            (encode ("set can-baudrate " ++ interface ++ " "
                     ++ str_of_int bit_rate ++ CRLF)))).
  { destruct Hi as [->| ->]; cbn; auto 6. }
  pose proof body_decode.
  repeat (apply only_bind; [first [now apply only_call_|now apply only_call
                                  |auto with session]|intros ?]).
  auto with session.
Qed.

Lemma body_can_Bus channel :
  nonempty channel = true ->
  only P (can_Bus "slcan" channel (bit_rate * 1000)).
Proof. intros Hc. apply only_call. cbn. auto. Qed.

Lemma body_main_configure m c1 c2 :
  only P (main_configure mode bit_rate m c1 c2).
Proof.
  unfold main_configure.
  apply only_bind.
  { destruct m as [dev|]; cbn [serial_Serial]; [now apply only_call|].
    auto with session. }
  intros p.
  apply only_bind; [auto with session|intros _].
  apply only_bind; [apply only_call_; cbn; auto|intros _].
  apply only_bind; [auto with session|intros _].
  apply only_bind; [now apply only_call|intros n].
  apply only_bind; [now apply only_call|intros _].
  apply only_bind; [auto with session|intros _].
  apply only_bind; [apply body_configure_can; auto|intros _].
  apply only_bind; [apply body_configure_can; auto|intros _].
  apply only_bind; [auto with session|intros _].
  apply only_bind.
  { destruct c1 as [channel|]; [|auto with session].
    destruct (nonempty channel) eqn:Hc; [|auto with session].
    apply only_bind; [now apply body_can_Bus|auto with session]. }
  intros _. apply only_bind; [|auto with session].
  destruct c2 as [channel|]; [|auto with session].
  destruct (nonempty channel) eqn:Hc; [|auto with session].
  apply only_bind; [now apply body_can_Bus|auto with session].
Qed.

Lemma body_method_of v name : only P (method_of v name).
Proof. destruct v; cbn; auto with session. Qed.

Hint Resolve body_method_of : session.

Lemma generated_frame_make msg_time number is_increment :
  0 <= number <= 9 ->
  generated_frame
    (make_message msg_time
       (snd (inc_dec_data_string number is_increment default_low default_high))).
Proof.
  intros Hn.
  pose proof (inc_dec_counter number is_increment default_low default_high
                ltac:(unfold default_low, default_high; lia) Hn) as Hc.
  unfold inc_dec_data_string in *. cbn [fst snd] in *.
  unfold generated_frame, make_message. cbn [arbitration_id is_extended_id data].
  repeat split. eexists. split; [exact Hc|reflexivity].
Qed.

Lemma body_main_loop fuel :
  forall number is_increment,
    0 <= number <= 9 ->
    only P (main_loop fuel mode number is_increment).
Proof.
  induction fuel as [|fuel IH]; intros number is_increment Hn;
    cbn [main_loop]; [auto with session|].
  pose proof (inc_dec_counter number is_increment default_low default_high
                ltac:(unfold default_low, default_high; lia) Hn) as Hc.
  pose proof (generated_frame_make) as Hframe.
  specialize (fun t => Hframe t number is_increment Hn).
  destruct (inc_dec_data_string number is_increment default_low default_high)
    as [[number' is_increment'] payload].
  cbn [fst snd] in Hc, Hframe. unfold default_low, default_high in Hc.
  destruct (String.eqb_spec mode "send") as [Hsend|_].
  { apply only_bind; [apply only_call; cbn; auto|intros msg_time].
    apply only_bind; [auto with session|intros st].
    apply only_bind; [auto with session|intros b1].
    apply only_bind; [apply only_call_; cbn; auto|intros _].
    auto with session. }
  destruct (String.eqb_spec mode "recv") as [Hrecv|_].
  { apply only_bind; [auto with session|intros st].
    apply only_bind; [auto with session|intros b1].
    apply only_bind; [apply only_call; cbn; auto|intros received_msg].
    auto with session. }
  destruct (String.eqb_spec mode "loopback") as [Hloop|_]; [|auto].
  apply only_bind; [apply only_call; cbn; auto|intros msg_time].
  apply only_bind; [auto with session|intros _].
  apply only_bind; [auto with session|intros st].
  apply only_bind; [auto with session|intros b1].
  apply only_bind; [apply only_call_; cbn; auto|intros _].
  apply only_bind; [auto with session|intros b2].
  apply only_bind; [apply only_call; cbn; auto|intros received_msg].
  auto with session.
Qed.

Lemma body_main_try fuel m c1 c2 :
  only P (main_configure mode bit_rate m c1 c2 ;; main_loop fuel mode 0 true).
Proof.
  apply only_bind; [apply body_main_configure|intros _].
  apply body_main_loop. lia.
Qed.

End SessionEvents.

(** ** The two phases of a session *)

Ltac pick_teardown_shape :=
  first [ exists 0%nat, 0%nat; reflexivity | exists 0%nat, 1%nat; reflexivity
        | exists 0%nat, 2%nat; reflexivity | exists 1%nat, 0%nat; reflexivity
        | exists 1%nat, 1%nat; reflexivity | exists 1%nat, 2%nat; reflexivity
        | exists 2%nat, 0%nat; reflexivity | exists 2%nat, 1%nat; reflexivity
        | exists 2%nat, 2%nat; reflexivity | exists 3%nat, 0%nat; reflexivity
        | exists 3%nat, 1%nat; reflexivity | exists 3%nat, 2%nat; reflexivity ].

Lemma main_finally_shape env st r st' :
  main_finally env st = (r, st') ->
  exists l, trace st' = (trace st ++ l)%list /\ teardown_shape st l.
Proof.
  unfold main_finally, try_except_pass, bind, sleep, call_, call, get_state,
    modify, ret.
  intros H. unfold teardown_shape, port_calls, shutdown_calls.
  destruct (raises env (clock st)) as [f|];
    cbn [clock push port bus1 bus2] in H.
  { inversion H; subst. exists [EvSleep 1000]. split; [reflexivity|].
    exists 0%nat, 0%nat. reflexivity. }
  destruct (port st) as [p|] eqn:Hp; [destruct (is_open p) eqn:Ho|];
    destruct (bus1 st) as [b1|] eqn:Hb1; destruct (bus2 st) as [b2|] eqn:Hb2;
    repeat match type of H with
           | context [raises env ?t] =>
             destruct (raises env t) as [[|? ?]|];
             cbn [exn_of_fault is_Exception clock push set_port] in H
           end;
    inversion H; subst;
    (eexists; split;
     [unfold trace; cbn [events push rev set_port]; rewrite <- ?app_assoc;
      reflexivity
     |pick_teardown_shape]).
Qed.

(** [try] / [except] / [finally] in two phases: the calls of the body and
    of a handler, made from [st] to a state [st1], then the [finally] block
    from [st1], unless the body is still running. *)
Lemma try_phases (P : event -> Prop) body on_interrupt on_exception fin
    env st r st' :
  only P body -> only P on_interrupt -> (forall e, only P (on_exception e)) ->
  try_except_finally body on_interrupt on_exception fin env st = (r, st') ->
  exists l1 st1,
    trace st1 = (trace st ++ l1)%list /\ Forall P l1 /\
    ((r = Running /\ st' = st1) \/ (exists rf, fin env st1 = (rf, st'))).
Proof.
  intros Hb Hi He H. unfold try_except_finally in H.
  destruct (body env st) as [r1 st1] eqn:E1.
  destruct (Hb _ _ _ _ E1) as [l1 [Ht1 Hq1]].
  destruct (match r1 with
            | Raise KeyboardInterrupt => on_interrupt env st1
            | Raise e => if is_Exception e then on_exception e env st1
                         else (Raise e, st1)
            | _ => (r1, st1)
            end) as [r2 st2] eqn:E2.
  assert (Hh : exists l, trace st2 = (trace st ++ l)%list /\ Forall P l).
  { destruct r1 as [u|e|].
    - inversion E2; subst. eauto.
    - assert (Hcase :
        (exists l, trace st2 = (trace st1 ++ l)%list /\ Forall P l)).
      { destruct e; cbn [is_Exception] in E2;
          try (inversion E2; subst; exists []; split;
               [now rewrite app_nil_r|constructor]; fail);
          first [exact (Hi _ _ _ _ E2)|exact (He _ _ _ _ _ E2)]. }
      destruct Hcase as [l2 [Ht2 Hq2]]. exists (l1 ++ l2)%list.
      split; [now rewrite Ht2, Ht1, app_assoc|now apply Forall_app].
    - inversion E2; subst. eauto. }
  destruct Hh as [l2 [Ht2 Hq2]]. exists l2, st2.
  split; [exact Ht2|]. split; [exact Hq2|].
  destruct r2 as [u|e|].
  - right. destruct (fin env st2) as [[u'|e'|] st3] eqn:E3;
      inversion H; subst; eauto.
  - right. destruct (fin env st2) as [[u'|e'|] st3] eqn:E3;
      inversion H; subst; eauto.
  - left. inversion H; subst. auto.
Qed.

Lemma trace_initial : trace initial = [].
Proof. reflexivity. Qed.

(** A session either ends in the checks of lines 139-160, having touched no
    device, or goes through the [try] block, whose calls are followed by
    those of the [finally] block unless the loop is still running. *)
Lemma main_phases env fuel mode bit_rate r st :
  main fuel mode bit_rate env initial = (r, st) ->
  (no_device_io st /\ Forall (body_event mode bit_rate) (trace st) /\
   exists e, r = Raise e) \/
  exists body st1,
    trace st1 = body /\ Forall (body_event mode bit_rate) body /\
    ((r = Running /\ st = st1) \/
     exists l2, trace st = (body ++ l2)%list /\ teardown_shape st1 l2).
Proof.
  intros H. unfold main in H. unfold bind at 1 in H.
  destruct (check_bit_rate bit_rate env initial) as [r1 s1] eqn:E1.
  destruct (safe_check_bit_rate _ _ _ _ _ E1 no_device_io_initial) as [Hio1 Hr1].
  destruct (body_check_bit_rate mode bit_rate _ _ _ _ E1) as [l1 [Ht1 Hl1]].
  rewrite trace_initial in Ht1. cbn [app] in Ht1.
  destruct r1 as [u1|e1|]; [|injection H as <- <-; left; rewrite Ht1; eauto|easy].
  unfold bind at 1 in H.
  destruct (resolve_paths env s1) as [r2 s2] eqn:E2.
  destruct (safe_resolve_paths _ _ _ _ E2 Hio1) as [Hio2 Hr2].
  destruct (body_resolve_paths mode bit_rate _ _ _ _ E2) as [l2 [Ht2 Hl2]].
  assert (Hb2 : Forall (body_event mode bit_rate) (trace s2)).
  { rewrite Ht2, Ht1. now apply Forall_app. }
  destruct r2 as [[[m c1] c2]|e2|]; [|injection H as <- <-; left; eauto|easy].
  unfold bind at 1 in H.
  destruct (check_paths mode m c1 c2 env s2) as [r3 s3] eqn:E3.
  destruct (safe_check_paths _ _ _ _ _ _ _ _ E3 Hio2) as [Hio3 Hr3].
  destruct (body_check_paths mode bit_rate _ _ _ _ _ _ _ E3) as [l3 [Ht3 Hl3]].
  assert (Hb3 : Forall (body_event mode bit_rate) (trace s3)).
  { rewrite Ht3. now apply Forall_app. }
  destruct r3 as [u3|e3|]; [|injection H as <- <-; left; eauto|easy].
  unfold bind at 1, modify in H.
  apply (try_phases (body_event mode bit_rate)) in H;
    [|apply body_main_try|apply body_print; exact I
     |intros e; apply body_print; exact I].
  destruct H as [l4 [st1 [Ht4 [Hl4 Hfin]]]].
  change (trace (set_bus2 None (set_bus1 None (set_port None s3))))
    with (trace s3) in Ht4.
  right. exists (trace s3 ++ l4)%list, st1.
  split; [exact Ht4|]. split; [now apply Forall_app|].
  destruct Hfin as [Hrun|[rf Hf]]; [now left|right].
  destruct (main_finally_shape _ _ _ _ Hf) as [l5 [Ht5 Hs5]].
  exists l5. split; [now rewrite Ht5, Ht4|exact Hs5].
Qed.

Lemma body_event_session mode bit_rate ev :
  body_event mode bit_rate ev -> session_event mode bit_rate ev.
Proof. destruct ev; cbn; auto; tauto. Qed.

Lemma Forall_first_calls (Q : event -> Prop) n (l : list event) :
  Forall Q l -> Forall Q (firstn n l).
Proof.
  revert n. induction l as [|ev l IH]; intros [|n] H; cbn; auto.
  inversion H; subst. constructor; auto.
Qed.

Lemma teardown_shape_session mode bit_rate st l :
  teardown_shape st l -> Forall (session_event mode bit_rate) l.
Proof.
  intros [i [j ->]]. constructor; [now right|].
  apply Forall_app. split; apply Forall_first_calls.
  - unfold port_calls. destruct (port st) as [p|]; [|constructor].
    destruct (is_open p); repeat constructor.
  - unfold shutdown_calls.
    destruct (bus1 st), (bus2 st); repeat constructor.
Qed.

Lemma main_session_events env fuel mode bit_rate :
  Forall (session_event mode bit_rate)
         (trace (snd (main fuel mode bit_rate env initial))).
Proof.
  destruct (main fuel mode bit_rate env initial) as [r st] eqn:E. cbn [snd].
  destruct (main_phases _ _ _ _ _ _ E)
    as [[_ [Hb _]]|[body [st1 [Ht [Hb [[_ ->]|[l2 [Ht2 Hs]]]]]]]].
  - eapply Forall_impl; [apply body_event_session|exact Hb].
  - rewrite Ht. eapply Forall_impl; [apply body_event_session|exact Hb].
  - rewrite Ht2. apply Forall_app. split.
    + eapply Forall_impl; [apply body_event_session|exact Hb].
    + eapply teardown_shape_session, Hs.
Qed.

(** X9: whatever the environment does and whatever ends the session,
    [main] writes nothing to the management port but the line end that
    wakes the card and the four commands [set can-mode VCANi slcan] and
    [set can-baudrate VCANi <bit_rate>], each with CR LF. *)
Theorem main_writes_only_its_lines
    (env : Env) (fuel : nat) (mode : string) (bit_rate : Z) :
  Forall (writes_one_of (management_lines bit_rate))
         (trace (snd (main fuel mode bit_rate env initial))).
Proof.
  eapply Forall_impl; [|apply main_session_events].
  intros ev. destruct ev; cbn; auto.
Qed.

(** X10: every CAN bus that [main] opens, in any environment, is opened
    with the interface [slcan], on a channel whose path is not empty, at
    1000 times the bit rate of the command line. *)
Theorem main_opens_buses_as_slcan
    (env : Env) (fuel : nat) (mode : string) (bit_rate : Z) :
  Forall (opens_bus_as "slcan" (bit_rate * 1000))
         (trace (snd (main fuel mode bit_rate env initial))).
Proof.
  eapply Forall_impl; [|apply main_session_events].
  intros ev. destruct ev; cbn; auto.
Qed.

Lemma generated_frame_fits (m : Message) :
  generated_frame m ->
  (String.length (data m) <= max_payload_length)%nat.
Proof.
  intros [_ [_ [d [Hd ->]]]]. unfold encode, max_payload_length.
  rewrite length_hello, (one_digit d Hd). lia.
Qed.

(** X11: every frame that [main] sends, in any environment and after any
    number of turns of the loop, is sent with a timeout of 200 ms and has
    the extended id 0x123 and a payload [hello_d] with one decimal digit,
    which fits the 8 bytes of a CAN frame: the counter of the generator
    never leaves 0..9 in the loop. *)
Theorem main_sends_generated_frames
    (env : Env) (fuel : nat) (mode : string) (bit_rate : Z) :
  Forall sends_generated_frame
         (trace (snd (main fuel mode bit_rate env initial))).
Proof.
  eapply Forall_impl; [|apply main_session_events].
  intros ev. destruct ev; cbn; auto.
  intros [_ [Ht Hf]]. auto using generated_frame_fits.
Qed.

(** X12: whatever the environment does, [main] builds and sends frames in
    the modes send and loopback only, and receives in the modes recv and
    loopback only: in mode recv nothing is ever sent, in mode send nothing
    is ever received, and with any other mode string the buses are opened
    and never used. *)
Theorem main_uses_buses_by_mode
    (env : Env) (fuel : nat) (mode : string) (bit_rate : Z) :
  Forall (uses_buses_of mode)
         (trace (snd (main fuel mode bit_rate env initial))).
Proof.
  eapply Forall_impl; [|apply main_session_events].
  intros ev. destruct ev; cbn; auto. tauto.
Qed.

(** ** The order of the teardown *)

Lemma unique_split (Q : event -> Prop) a x b pre y post :
  Forall Q a -> Forall Q b -> ~ Q y ->
  (a ++ x :: b)%list = (pre ++ y :: post)%list ->
  pre = a /\ y = x /\ post = b.
Proof.
  intros Ha Hb Hy. revert pre. induction a as [|u a IH]; intros pre H.
  - destruct pre as [|z pre]; cbn in H.
    + injection H as -> ->. auto.
    + injection H as -> ->.
      apply Forall_app in Hb. destruct Hb as [_ Hb].
      inversion Hb; subst. contradiction.
  - inversion Ha; subst. destruct pre as [|z pre]; cbn in H.
    + injection H as -> _. contradiction.
    + injection H as -> H. destruct (IH H3 pre H) as [-> [-> ->]]. auto.
Qed.

Lemma no_split (Q : event -> Prop) l pre y post :
  Forall Q l -> ~ Q y -> l <> (pre ++ y :: post)%list.
Proof.
  intros Hl Hy ->. apply Forall_app in Hl. destruct Hl as [_ Hl].
  inversion Hl; subst. contradiction.
Qed.

Lemma body_event_not_close mode bit_rate ev :
  body_event mode bit_rate ev -> ~ is_close ev.
Proof. intros H [d ->]. exact H. Qed.

Lemma shutdown_calls_shutdown st : Forall is_shutdown (shutdown_calls st).
Proof.
  unfold shutdown_calls.
  destruct (bus1 st), (bus2 st); repeat constructor; eexists; reflexivity.
Qed.

Lemma shutdown_not_close ev : is_shutdown ev -> ~ is_close ev.
Proof. intros [b ->] [d H]. discriminate. Qed.

(** The calls of a [finally] block either hold no close, or are the settle
    delay, the three calls of the port step and then shutdowns only. *)
Lemma teardown_shape_close st l :
  teardown_shape st l ->
  Forall (fun ev => ~ is_close ev) l \/
  exists d shutdowns,
    l = ([EvSleep 1000; EvResetInput d; EvResetOutput d]
         ++ EvClose d :: shutdowns)%list /\
    Forall is_shutdown shutdowns.
Proof.
  intros [i [j ->]].
  assert (Hs : Forall is_shutdown (firstn j (shutdown_calls st)))
    by apply Forall_first_calls, shutdown_calls_shutdown.
  assert (Hsc : Forall (fun ev => ~ is_close ev) (firstn j (shutdown_calls st))).
  { eapply Forall_impl; [apply shutdown_not_close|exact Hs]. }
  assert (Hno : forall ev, (forall d, ev <> EvClose d) -> ~ is_close ev).
  { intros ev H [d Hd]. exact (H d Hd). }
  unfold port_calls. destruct (port st) as [p|].
  2:{ left. rewrite firstn_nil. constructor; [apply Hno; discriminate|exact Hsc]. }
  destruct (is_open p).
  2:{ left. rewrite firstn_nil. constructor; [apply Hno; discriminate|exact Hsc]. }
  destruct i as [|[|[|i]]]; cbn [firstn app].
  - left. constructor; [apply Hno; discriminate|exact Hsc].
  - left. repeat (constructor; [apply Hno; discriminate|]). exact Hsc.
  - left. repeat (constructor; [apply Hno; discriminate|]). exact Hsc.
  - right. exists (portstr p), (firstn j (shutdown_calls st)).
    rewrite firstn_nil. split; [reflexivity|exact Hs].
Qed.

(** X13: the management port is closed at most once and never used again.
    In any environment and however the session ends, a close of the port in
    the trace of [main] is followed by shutdowns of bus handles only, and
    nothing before it is a close. *)
Theorem port_never_used_after_close
    (env : Env) (fuel : nat) (mode : string) (bit_rate : Z)
    (pre post : list event) (d : string) :
  trace (snd (main fuel mode bit_rate env initial))
  = (pre ++ EvClose d :: post)%list ->
  Forall is_shutdown post /\ Forall (fun ev => ~ is_close ev) pre.
Proof.
  destruct (main fuel mode bit_rate env initial) as [r st] eqn:E. cbn [snd].
  assert (Hd : is_close (EvClose d)) by (eexists; reflexivity).
  assert (Hbody : forall l, Forall (body_event mode bit_rate) l ->
                            Forall (fun ev => ~ is_close ev) l).
  { intros l. apply Forall_impl, body_event_not_close. }
  intros H.
  destruct (main_phases _ _ _ _ _ _ E)
    as [[_ [Hb _]]|[body [st1 [Ht [Hb [[_ ->]|[l2 [Ht2 Hs]]]]]]]].
  - exact (False_ind _ (no_split (fun ev => ~ is_close ev) _ _ _ _
                          (Hbody _ Hb) (fun k => k Hd) H)).
  - rewrite Ht in H.
    exact (False_ind _ (no_split (fun ev => ~ is_close ev) _ _ _ _
                          (Hbody _ Hb) (fun k => k Hd) H)).
  - rewrite Ht2 in H.
    destruct (teardown_shape_close _ _ Hs) as [Hno|[d' [sh [-> Hsh]]]].
    + refine (False_ind _ (no_split (fun ev => ~ is_close ev) _ _ _ _
                             _ (fun k => k Hd) H)).
      apply Forall_app. auto.
    + rewrite app_assoc in H.
      apply (unique_split (fun ev => ~ is_close ev)) in H.
      * destruct H as [-> [_ ->]]. split; [exact Hsh|].
        apply Forall_app. split; [auto|].
        repeat constructor; intros [x Hx]; discriminate.
      * apply Forall_app. split; [auto|].
        repeat constructor; intros [x Hx]; discriminate.
      * eapply Forall_impl; [apply shutdown_not_close|exact Hsh].
      * exact (fun k => k Hd).
Qed.

Lemma port_never_used_after_close_witness :
  Forall is_shutdown
    (skipn 44 (trace (snd (main 2 "send" 1000
                             (bench card_ports (fault_at 38 Interrupt) "")
                             initial)))).
Proof.
  refine (proj1 (port_never_used_after_close
                   (bench card_ports (fault_at 38 Interrupt) "") 2 "send" 1000
                   (firstn 43 (trace (snd (main 2 "send" 1000
                      (bench card_ports (fault_at 38 Interrupt) "") initial))))
                   (skipn 44 (trace (snd (main 2 "send" 1000
                      (bench card_ports (fault_at 38 Interrupt) "") initial))))
                   "/dev/ttyACM0" _)).
  vm_compute. reflexivity.
Defined.

Lemma in_first_calls (ev : event) n (l : list event) :
  In ev (firstn n l) -> In ev l.
Proof.
  revert n. induction l as [|x l IH]; intros [|n]; cbn; auto.
  - contradiction.
  - intros [H|H]; eauto.
Qed.

(** X14: the teardown is always attempted.  In any environment, when
    [main] has got as far as opening the management port and has returned
    or raised, the settle delay of the [finally] block is in its trace,
    after every call of the [try] block and of its handlers. *)
Theorem teardown_always_attempted
    (env : Env) (fuel : nat) (mode : string) (bit_rate : Z)
    (r : result unit) (st : State) (d : string) :
  main fuel mode bit_rate env initial = (r, st) ->
  r <> Running ->
  In (EvSerialOpen d) (trace st) ->
  exists body rest,
    trace st = (body ++ EvSleep 1000 :: rest)%list /\
    Forall (body_event mode bit_rate) body /\
    In (EvSerialOpen d) body.
Proof.
  intros E Hr Hopen.
  destruct (main_phases _ _ _ _ _ _ E)
    as [[Hio _]|[body [st1 [Ht [Hb [[-> _]|[l2 [Ht2 Hs]]]]]]]].
  - exfalso. unfold no_device_io in Hio. rewrite Forall_forall in Hio.
    apply In_rev in Hopen. specialize (Hio _ Hopen). discriminate.
  - contradiction.
  - destruct Hs as [i [j ->]]. eexists body, _. split; [exact Ht2|].
    split; [exact Hb|].
    rewrite Ht2 in Hopen. apply in_app_or in Hopen.
    destruct Hopen as [H|H]; [exact H|exfalso].
    destruct H as [H|H]; [discriminate|].
    apply in_app_or in H. destruct H as [H|H]; apply in_first_calls in H.
    + unfold port_calls in H. destruct (port st1) as [p|]; [|contradiction].
      destruct (is_open p); [|contradiction].
      destruct H as [H|[H|[H|[]]]]; discriminate.
    + unfold shutdown_calls in H.
      destruct (bus1 st1), (bus2 st1); cbn in H; intuition discriminate.
Qed.

Lemma teardown_always_attempted_witness :
  exists body rest,
    trace (snd (main 2 "send" 1000
                  (bench card_ports (fault_at 38 Interrupt) "") initial))
    = (body ++ EvSleep 1000 :: rest)%list /\
    Forall (body_event "send" 1000) body /\
    In (EvSerialOpen "/dev/ttyACM0") body.
Proof.
  apply (teardown_always_attempted
           (bench card_ports (fault_at 38 Interrupt) "") 2 "send" 1000
           (Ok tt)).
  - vm_compute. reflexivity.
  - discriminate.
  - vm_compute. repeat (first [left; reflexivity|right]).
Defined.

(** ** Sessions that fail *)

Lemma main_finally_all_quiet env st :
  (forall t,
     (clock st <= t < 1 + length (port_calls st ++ shutdown_calls st)
                      + clock st)%nat ->
     raises env t = None) ->
  main_finally env st = (Ok tt, after_teardown st).
Proof.
  unfold main_finally, after_teardown, port_calls, shutdown_calls,
    try_except_pass, bind, sleep, call_, call, get_state, modify, ret.
  destruct (port st) as [p|] eqn:Hp; [destruct (is_open p) eqn:Ho|];
    destruct (bus1 st) as [b1|] eqn:Hb1; destruct (bus2 st) as [b2|] eqn:Hb2;
    cbn [length app Nat.add]; intros Hq;
    rewrite Hq by lia; cbn [clock push port bus1 bus2];
    rewrite ?Hp, ?Hb1, ?Hb2; rewrite ?Ho; cbn [clock push portstr];
    quiet_run Hq; reflexivity.
Qed.

(** [try] / [except] / [finally] when the body raises an [Exception], the
    handler prints, and the [finally] block returns. *)
Lemma try_failed body on_interrupt on_exception fin env st e st1 st2 st3 :
  body env st = (Raise e, st1) ->
  is_Exception e = true ->
  on_exception e env st1 = (Ok tt, st2) ->
  fin env st2 = (Ok tt, st3) ->
  try_except_finally body on_interrupt on_exception fin env st = (Ok tt, st3).
Proof.
  intros Hb He Hh Hf. unfold try_except_finally. rewrite Hb.
  destruct e; try discriminate He; cbn [is_Exception]; now rewrite Hh, Hf.
Qed.



Section Faults.

Variable env : Env.
Variables d0 d1 d2 : string.
Variable st0 : State.

Hypothesis paths_found :
  resolve_paths env initial = (Ok (Some d0, Some d1, Some d2), st0).
Hypothesis d0_path : nonempty d0 = true.
Hypothesis d1_path : nonempty d1 = true.
Hypothesis d2_path : nonempty d2 = true.
Hypothesis echo_utf8 : forall t, utf8_valid (read_reply env t) = true.

Lemma main_enters_try fuel mode bit_rate :
  In bit_rate valid_bit_rates ->
  main fuel mode bit_rate env initial =
  try_except_finally
    (main_configure mode bit_rate (Some d0) (Some d1) (Some d2) ;;
     main_loop fuel mode 0 true)
    (print (Text (NL ++ "Operation terminated by user.")))
    (fun e => print (ErrorLine e))
    main_finally env
    (set_bus2 None (set_bus1 None (set_port None st0))).
Proof.
  intros Hvalid. apply existsb_valid in Hvalid.
  unfold main, bind at 1, check_bit_rate. rewrite Hvalid. cbn [negb ret].
  unfold bind at 1. rewrite paths_found.
  unfold bind at 1. rewrite check_paths_resolved by assumption.
  reflexivity.
Qed.

(** X15: when opening the management port fails, the session is over
    before it began: nothing is written and no bus is opened, the error is
    reported, the [finally] block sleeps and finds nothing to clean up, and
    [main] returns normally, so the process ends with status 0. *)
Theorem port_open_failure
    (fuel : nat) (mode : string) (bit_rate : Z) (name msg : string) :
  In bit_rate valid_bit_rates ->
  raises env (clock st0) = Some (Failure name msg) ->
  raises env (1 + clock st0)%nat = None ->
  raises env (2 + clock st0)%nat = None ->
  exists st,
    main fuel mode bit_rate env initial = (Ok tt, st) /\
    trace st =
    (trace st0
     ++ [ EvSerialOpen d0;
          EvPrint (ErrorLine (LibraryError name msg));
          EvSleep 1000 ])%list /\
    port st = None /\ bus1 st = None /\ bus2 st = None.
Proof.
  intros Hvalid Hf H1 H2. rewrite main_enters_try by exact Hvalid.
  cbn [Nat.add] in H1, H2.
  eexists. split.
  - eapply try_failed.
    + unfold bind at 1, main_configure, bind at 1, serial_Serial, call.
      cbn [clock set_bus2 set_bus1 set_port]. rewrite Hf. reflexivity.
    + reflexivity.
    + unfold print, call_, call. cbn [clock push set_bus2 set_bus1 set_port].
      rewrite H1. reflexivity.
    + apply main_finally_all_quiet. cbn. intros t Ht.
      replace t with (S (S (clock st0))) by lia. exact H2.
  - split; [|auto]. unfold after_teardown, trace. cbn.
    rewrite <- !app_assoc. reflexivity.
Qed.

Lemma main_configure_bus1_fails st mode bit_rate name msg :
  (forall t, (clock st <= t < 21 + clock st)%nat -> raises env t = None) ->
  raises env (21 + clock st)%nat = Some (Failure name msg) ->
  main_configure mode bit_rate (Some d0) (Some d1) (Some d2) env st =
  (Raise (LibraryError name msg),
   {| clock := 22 + clock st;
      events := (rev (firstn 22 (main_configure_calls env (clock st) mode
                                   bit_rate d0 d1 d2)) ++ events st)%list;
      port := Some {| portstr := d0; is_open := true |};
      bus1 := bus1 st; bus2 := bus2 st |}).
Proof.
  intros Hq Hf.
  pose proof (echo_utf8 (11 + clock st)%nat) as Hu1.
  pose proof (echo_utf8 (18 + clock st)%nat) as Hu2.
  cbn [Nat.add] in Hu1, Hu2, Hf.
  unfold main_configure, configure_can, serial_Serial, can_Bus, decode, encode.
  rewrite d1_path.
  unfold bind, print, sleep, call_, call, modify, ret.
  cbn [clock push set_port set_bus1 set_bus2 portstr].
  quiet_run Hq. rewrite Hu1.
  cbn [clock push set_port set_bus1 set_bus2 portstr].
  quiet_run Hq. rewrite Hu2.
  cbn [clock push set_port set_bus1 set_bus2 portstr].
  quiet_run Hq. rewrite Hf. reflexivity.
Qed.

(** X16: when opening the channel-1 bus fails, after the card has been
    configured, the second bus is never opened; the error is reported,
    the [finally] block resets and closes the management port and shuts
    nothing down, and [main] returns normally. *)
Theorem bus1_open_failure
    (fuel : nat) (mode : string) (bit_rate : Z) (name msg : string) :
  In bit_rate valid_bit_rates ->
  (forall t, (t < 21 + clock st0)%nat -> raises env t = None) ->
  raises env (21 + clock st0)%nat = Some (Failure name msg) ->
  (forall t, (21 + clock st0 < t <= 26 + clock st0)%nat ->
             raises env t = None) ->
  exists st,
    main fuel mode bit_rate env initial = (Ok tt, st) /\
    trace st =
    (trace st0
     ++ firstn 21 (main_configure_calls env (clock st0) mode bit_rate d0 d1 d2)
     ++ [ EvBusOpen "slcan" d1 (bit_rate * 1000);
          EvPrint (ErrorLine (LibraryError name msg));
          EvSleep 1000;
          EvResetInput d0; EvResetOutput d0; EvClose d0 ])%list /\
    bus1 st = None /\ bus2 st = None.
Proof.
  intros Hvalid Hq Hf Hafter. rewrite main_enters_try by exact Hvalid.
  eexists. split.
  - eapply try_failed.
    + unfold bind at 1. rewrite (main_configure_bus1_fails _ _ _ name msg).
      * reflexivity.
      * intros t Ht. apply Hq. cbn [clock set_bus2 set_bus1 set_port] in Ht. lia.
      * exact Hf.
    + reflexivity.
    + unfold print, call_, call. cbn [clock]. rewrite Hafter; [reflexivity|].
      cbn [clock set_bus2 set_bus1 set_port]. lia.
    + apply main_finally_all_quiet. cbn. intros t Ht. apply Hafter. lia.
  - split; [|auto]. unfold after_teardown, trace. cbn.
    rewrite <- !app_assoc. reflexivity.
Qed.

(** X17: a library exception in a call of the loopback loop ends the
    session.  With no fault before call [k] of the loop and an
    [Exception] raised by call [k] (a send that times out, a receive or a
    print that fails), the turn is cut short, the error is reported, the
    [finally] block closes the port and shuts both handles down, and
    [main] returns normally. *)
Theorem loopback_failure_ends_session
    (bit_rate : Z) (k : nat) (name msg : string) :
  In bit_rate valid_bit_rates ->
  (24 + clock st0 <= k)%nat ->
  (forall t, (t < k)%nat -> raises env t = None) ->
  raises env k = Some (Failure name msg) ->
  (forall t, (k < t <= 7 + k)%nat -> raises env t = None) ->
  let t0 := clock st0 in
  let b1 := bus1_at t0 bit_rate d1 in
  let b2 := bus2_at t0 bit_rate d2 in
  forall n, (k - (24 + t0) < 6 * n)%nat ->
    exists st,
      main n "loopback" bit_rate env initial = (Ok tt, st) /\
      trace st =
      (trace st0
       ++ main_configure_calls env t0 "loopback" bit_rate d0 d1 d2
       ++ firstn (S (k - (24 + t0)))
                 (loopback_calls env b1 b2 n (24 + t0) 0 true)
       ++ [EvPrint (ErrorLine (LibraryError name msg))]
       ++ teardown_calls d0 b1 b2)%list.
Proof.
  intros Hvalid Hle Hq Hk Hafter t0 b1 b2 n Hn.
  rewrite (main_reaches_loop env d0 d1 d2 st0) by
    (auto; try (now apply existsb_valid); intros t Ht; apply Hq; lia).
  set (st1 := loop_start env st0 d0 d1 d2 "loopback" bit_rate).
  set (calls := loopback_calls env b1 b2 n (24 + t0) 0 true).
  set (j := (k - (24 + t0))%nat) in *.
  assert (Hc1 : clock st1 = (24 + t0)%nat) by reflexivity.
  set (st2 := pushes (firstn (S j) calls) st1).
  assert (Hlen : length (firstn (S j) calls) = S j).
  { rewrite length_firstn. unfold calls. rewrite length_loopback_calls. lia. }
  assert (Hc2 : clock st2 = S k).
  { unfold st2. rewrite clock_pushes, Hlen, Hc1. lia. }
  destruct (locals_pushes (firstn (S j) calls) st1) as [Hp [Hb1 Hb2]].
  fold st2 in Hp, Hb1, Hb2.
  set (st3 := push (EvPrint (ErrorLine (LibraryError name msg))) st2).
  eexists. split.
  - eapply try_failed with (st1 := st2) (st2 := st3).
    + rewrite (loopback_loop env b1 b2) by reflexivity.
      unfold loop_outcome.
      rewrite (replay_fault env _ st1 j (Failure name msg)); [reflexivity| | |].
      * unfold calls. rewrite length_loopback_calls. exact Hn.
      * intros t Ht. apply Hq. lia.
      * rewrite Hc1. replace (j + (24 + t0))%nat with k by lia. exact Hk.
    + reflexivity.
    + unfold print, call_, call. rewrite Hc2, Hafter by lia. reflexivity.
    + apply (main_finally_quiet env st3 d0 b1 b2);
        [exact Hp|exact Hb1|exact Hb2|].
      intros t Ht. apply Hafter. cbn [clock st3 push] in Ht. lia.
  - unfold trace at 1. cbn [events set_port].
    fold (trace (pushes (teardown_calls d0 b1 b2) st3)).
    rewrite trace_pushes. unfold st3, trace at 1. cbn [events push rev].
    fold (trace st2). unfold st2. rewrite trace_pushes.
    unfold st1. rewrite trace_loop_start.
    rewrite <- !app_assoc. reflexivity.
Qed.


End Faults.

Lemma port_open_failure_witness :
  let env := bench card_ports
               (fault_at 9 (Failure "SerialException" "could not open port"))
               "" in
  exists st,
    main 3 "send" 500 env initial = (Ok tt, st) /\
    skipn 9 (trace st) =
    [ EvSerialOpen "/dev/ttyACM0";
      EvPrint (ErrorLine
                 (LibraryError "SerialException" "could not open port"));
      EvSleep 1000 ].
Proof.
  intros env.
  destruct (port_open_failure env "/dev/ttyACM0" "/dev/ttyACM1" "/dev/ttyACM2"
              (snd (resolve_paths env initial)))
    with (fuel := 3%nat) (mode := "send") (bit_rate := 500)
         (name := "SerialException") (msg := "could not open port")
    as [st [Hmain [Ht _]]].
  - vm_compute. reflexivity.
  - reflexivity.
  - reflexivity.
  - reflexivity.
  - vm_compute. lia.
  - reflexivity.
  - reflexivity.
  - reflexivity.
  - exists st. split; [exact Hmain|]. rewrite Ht. reflexivity.
Defined.

Lemma bus1_open_failure_witness :
  let env := bench card_ports
               (fault_at 30 (Failure "SerialException" "device busy")) "" in
  exists st,
    main 3 "loopback" 250 env initial = (Ok tt, st) /\
    skipn 30 (trace st) =
    [ EvBusOpen "slcan" "/dev/ttyACM1" 250000;
      EvPrint (ErrorLine (LibraryError "SerialException" "device busy"));
      EvSleep 1000;
      EvResetInput "/dev/ttyACM0"; EvResetOutput "/dev/ttyACM0";
      EvClose "/dev/ttyACM0" ].
Proof.
  intros env.
  destruct (bus1_open_failure env "/dev/ttyACM0" "/dev/ttyACM1" "/dev/ttyACM2"
              (snd (resolve_paths env initial)))
    with (fuel := 3%nat) (mode := "loopback") (bit_rate := 250)
         (name := "SerialException") (msg := "device busy")
    as [st [Hmain [Ht _]]].
  - vm_compute. reflexivity.
  - reflexivity.
  - reflexivity.
  - reflexivity.
  - intros t. reflexivity.
  - vm_compute. lia.
  - intros t Ht. cbn. unfold fault_at.
    destruct (Nat.eqb_spec t 30); [|reflexivity].
    exfalso. cbn in Ht. lia.
  - reflexivity.
  - intros t Ht. cbn. unfold fault_at.
    destruct (Nat.eqb_spec t 30); [|reflexivity].
    exfalso. cbn in Ht. lia.
  - exists st. split; [exact Hmain|]. rewrite Ht. reflexivity.
Defined.

Lemma loopback_failure_ends_session_witness :
  let env := bench card_ports
               (fault_at 36 (Failure "CanOperationError" "bus off")) "" in
  exists st,
    main 2 "loopback" 1000 env initial = (Ok tt, st) /\
    skipn 36 (trace st) =
    [ EvBusRecv (bus2_at 9 1000 "/dev/ttyACM2");
      EvPrint (ErrorLine (LibraryError "CanOperationError" "bus off"));
      EvSleep 1000;
      EvResetInput "/dev/ttyACM0"; EvResetOutput "/dev/ttyACM0";
      EvClose "/dev/ttyACM0";
      EvBusShutdown (bus1_at 9 1000 "/dev/ttyACM1");
      EvBusShutdown (bus2_at 9 1000 "/dev/ttyACM2") ].
Proof.
  intros env.
  destruct (loopback_failure_ends_session env
              "/dev/ttyACM0" "/dev/ttyACM1" "/dev/ttyACM2"
              (snd (resolve_paths env initial)))
    with (bit_rate := 1000) (k := 36%nat)
         (name := "CanOperationError") (msg := "bus off") (n := 2%nat)
    as [st [Hmain Ht]].
  - vm_compute. reflexivity.
  - reflexivity.
  - reflexivity.
  - reflexivity.
  - intros t. reflexivity.
  - vm_compute. lia.
  - vm_compute. lia.
  - intros t Ht. cbn. unfold fault_at.
    destruct (Nat.eqb_spec t 36); [lia|reflexivity].
  - reflexivity.
  - intros t Ht. cbn. unfold fault_at.
    destruct (Nat.eqb_spec t 36); [lia|reflexivity].
  - vm_compute. lia.
  - exists st. split; [exact Hmain|]. rewrite Ht. reflexivity.
Defined.


(** ** The teardown on its own *)

Lemma main_finally_run_witness :
  let env := bench card_ports
               (fault_at 2 (Failure "SerialException" "port is gone")) "" in
  let b1 := bus1_at 9 1000 "/dev/ttyACM1" in
  let b2 := bus2_at 9 1000 "/dev/ttyACM2" in
  let st :=
    set_bus2 (Some b2)
      (set_bus1 (Some b1)
         (set_port (Some {| portstr := "/dev/ttyACM0"; is_open := true |})
            initial)) in
  exists st',
    main_finally env st = (Ok tt, st') /\
    trace st' =
    [ EvSleep 1000; EvResetInput "/dev/ttyACM0"; EvResetOutput "/dev/ttyACM0";
      EvBusShutdown b1; EvBusShutdown b2 ].
Proof.
  intros env b1 b2 st.
  apply (main_finally_run env st "/dev/ttyACM0" b1 b2).
  - reflexivity.
  - reflexivity.
  - reflexivity.
  - reflexivity.
  - intros t. cbn. unfold fault_at. destruct (Nat.eqb t 2); discriminate.
Defined.

(** X20: Ctrl+C during the teardown is not swallowed.  With the port open
    and both handles made, a [KeyboardInterrupt] in the settle delay or in
    one of the three calls of the port step (call [j] of the block,
    [j <= 3]) leaves the [finally] block at once: the guard of the port
    step catches [Exception] only.  The calls after it are not made, so the
    port is still flagged open and neither handle is shut down. *)
Theorem teardown_interrupt_not_swallowed
    (env : Env) (st : State) (d0 : string) (b1 b2 : Bus) (j : nat) :
  port st = Some {| portstr := d0; is_open := true |} ->
  bus1 st = Some b1 -> bus2 st = Some b2 ->
  (j <= 3)%nat ->
  (forall t, (clock st <= t < j + clock st)%nat -> raises env t = None) ->
  raises env (j + clock st)%nat = Some Interrupt ->
  exists st',
    main_finally env st = (Raise KeyboardInterrupt, st') /\
    trace st' = (trace st ++ firstn (S j) (teardown_calls d0 b1 b2))%list /\
    port st' = Some {| portstr := d0; is_open := true |} /\
    ~ In (EvBusShutdown b1) (firstn (S j) (teardown_calls d0 b1 b2)) /\
    ~ In (EvBusShutdown b2) (firstn (S j) (teardown_calls d0 b1 b2)).
Proof.
  intros Hp Hb1 Hb2 Hj Hq Hi.
  assert (Hno : forall b,
             ~ In (EvBusShutdown b) (firstn (S j) (teardown_calls d0 b1 b2))).
  { intros b H.
    destruct j as [|[|[|[|j]]]]; [| | |  |lia]; cbn in H;
      repeat (destruct H as [H|H]; [discriminate H|]); exact H. }
  unfold main_finally, try_except_pass, bind, sleep, call_, call, get_state,
    modify.
  destruct j as [|[|[|[|j]]]]; [| | | |lia]; cbn [Nat.add] in Hi;
    repeat first
      [ rewrite Hi | rewrite Hq by lia | rewrite Hp | rewrite Hb1
      | rewrite Hb2
      | progress cbn [clock push port bus1 bus2 is_open portstr
                      exn_of_fault is_Exception] ];
    (eexists; split; [reflexivity|]);
    (split; [unfold trace; cbn [events push rev firstn teardown_calls];
             rewrite <- ?app_assoc; reflexivity|]);
    (split; [exact Hp|]); split; apply Hno.
Qed.

Lemma teardown_interrupt_not_swallowed_witness :
  let env := bench card_ports (fault_at 3 Interrupt) "" in
  let b1 := bus1_at 9 1000 "/dev/ttyACM1" in
  let b2 := bus2_at 9 1000 "/dev/ttyACM2" in
  let st :=
    set_bus2 (Some b2)
      (set_bus1 (Some b1)
         (set_port (Some {| portstr := "/dev/ttyACM0"; is_open := true |})
            initial)) in
  exists st',
    main_finally env st = (Raise KeyboardInterrupt, st') /\
    trace st' =
    [ EvSleep 1000; EvResetInput "/dev/ttyACM0"; EvResetOutput "/dev/ttyACM0";
      EvClose "/dev/ttyACM0" ].
Proof.
  intros env b1 b2 st.
  destruct (teardown_interrupt_not_swallowed env st "/dev/ttyACM0" b1 b2 3)
    as [st' [Hrun [Ht _]]].
  - reflexivity.
  - reflexivity.
  - reflexivity.
  - lia.
  - intros t Ht. cbn. unfold fault_at.
    destruct (Nat.eqb_spec t 3); [|reflexivity].
    exfalso. cbn in Ht. lia.
  - reflexivity.
  - exists st'. split; [exact Hrun|]. rewrite Ht. reflexivity.
Defined.
